(** * dmark: token codecs of the DMARC aggregate report model

    A shallow embedding of the [MarshalText] / [UnmarshalText] methods of
    package [dmark] (Alignment, Disposition, Result, PolicyOverride,
    DKIMResult, SPFDomainScope, SPFResult) and the properties of the
    encode / decode pairs, followed by the command reports2html
    ([loadTemplate], [readReports], [executeTemplate], [run]), which reads
    a directory of reports and renders them.

    Conventions.
    - A Go [string] / [[]byte] is a sequence of bytes: Rocq's [string]
      (a list of 8-bit [ascii]).
    - A Go [int] backed enumeration ([type Alignment int]) is a [Z]; every
      [Z] is allowed, because any integer converts to the enumeration type.
    - [error] is the value built by [fmt.Errorf]; the nil error is [None].
    - A method with a pointer receiver that assigns [*p] takes the value
      stored before the call and returns the value stored after it. *)

From Stdlib Require Import ZArith NArith List Bool String Ascii Lia.
Import ListNotations.
Open Scope string_scope.
Open Scope Z_scope.

(** ** Bytes and strings *)

(** [utf8.RuneSelf]: bytes below it are ASCII characters. *)
Definition RuneSelf : N := 128.

Definition byteval (c : ascii) : N := N_of_ascii c.

(** ['A' <= c && c <= 'Z'] *)
Definition isUpper (c : ascii) : bool :=
  (65 <=? byteval c)%N && (byteval c <=? 90)%N.

(** [if 'A' <= c && c <= 'Z' { c += 'a' - 'A' }] *)
Definition lowerByte (c : ascii) : ascii :=
  if isUpper c then ascii_of_N (byteval c + 32) else c.

Fixpoint string_map (f : ascii -> ascii) (s : string) : string :=
  match s with
  | EmptyString => EmptyString
  | String c s' => String (f c) (string_map f s')
  end.

Fixpoint string_forallb (p : ascii -> bool) (s : string) : bool :=
  match s with
  | EmptyString => true
  | String c s' => p c && string_forallb p s'
  end.

(** The first loop of [strings.ToLower]: walk the bytes, stop at the first
    one that is not ASCII, remember whether an upper case letter was seen.
    Returns [(isASCII, hasUpper)]. *)
Fixpoint scanASCII (s : string) (hasUpper : bool) : bool * bool :=
  match s with
  | EmptyString => (true, hasUpper)
  | String c s' =>
      if (RuneSelf <=? byteval c)%N then (false, hasUpper)
      else scanASCII s' (hasUpper || isUpper c)
  end.

(** [strings.Contains]: [substr] occurs in [s]. *)
Fixpoint Contains (s substr : string) : bool :=
  prefix substr s ||
  match s with
  | EmptyString => false
  | String _ s' => Contains s' substr
  end.

(** Two tokens differ only in letter case: same length, and at each
    position the same byte up to the case of an ASCII letter. *)
Fixpoint sameUpToCase (t u : string) : bool :=
  match t, u with
  | EmptyString, EmptyString => true
  | String c t', String d u' =>
      Ascii.eqb (lowerByte c) (lowerByte d) && sameUpToCase t' u'
  | _, _ => false
  end.

(** A token without upper case ASCII letters. *)
Definition isLowercase (s : string) : bool :=
  string_forallb (fun c => negb (isUpper c)) s.

(** ** Errors *)

(** [fmt.Errorf(format, a)] with its one argument, kept unrendered. *)
Inductive error : Type :=
| Errorf (format : string) (a : string).

Definition format_of (e : error) : string :=
  match e with Errorf f _ => f end.

Definition arg_of (e : error) : string :=
  match e with Errorf _ a => a end.

(** ** Go's expression switch

    The tag is compared with the case expressions from top to bottom; the
    first equal one selects its body, and [default] runs when none is equal,
    wherever it is written in the switch. *)
Fixpoint switch {K A : Type} (eqb : K -> K -> bool) (tag : K)
         (cases : list (K * A)) (default : A) : A :=
  match cases with
  | [] => default
  | (k, body) :: rest =>
      if eqb tag k then body else switch eqb tag rest default
  end.

(** [strings.HasSuffix]:
    [len(s) >= len(suffix) && s[len(s)-len(suffix):] == suffix]. *)
Definition HasSuffix (s suffix : string) : bool :=
  (String.length suffix <=? String.length s)%nat &&
  String.eqb
    (substring (String.length s - String.length suffix)
               (String.length s - (String.length s - String.length suffix))
               s)
    suffix.

(** ** The world of the command reports2html

    The command reads a directory of reports and renders them through a
    template.  What lies outside the program is kept abstract: [World] is
    the state of the file system and of the process, and each library call
    that touches it is a function from the world before the call to its
    result and the world after.  The statements hold for every world and
    every behaviour of these calls.

    - [Cause]: the errors returned by the packages os, ioutil, template
      and xml;
    - [Feedback], [Feedback_zero]: [dmark.Feedback], which the command only
      passes on, and its zero value [dmark.Feedback{}];
    - [template_ParseFiles]:
      [template.New("template.html").Funcs(...).ParseFiles(path)];
    - [ioutil_ReadDir]: [ioutil.ReadDir(dir)], as the names of the entries,
      in its order;
    - [ioutil_ReadFile]: [ioutil.ReadFile(name)];
    - [xml_Unmarshal]: [xml.Unmarshal(content, &feedback)], the filled
      value and the error;
    - [os_Create]: [os.Create(path)];
    - [Template_Execute]: [template.Execute(file, reports)];
    - [File_Close]: [file.Close()]. *)
Class Env : Type := {
  World : Type;
  Cause : Type;
  Feedback : Type;
  Feedback_zero : Feedback;
  Template : Type;
  File : Type;
  template_ParseFiles : string -> World -> (Template + Cause) * World;
  ioutil_ReadDir : string -> World -> (list string + Cause) * World;
  ioutil_ReadFile : string -> World -> (string + Cause) * World;
  xml_Unmarshal : string -> Feedback -> Feedback * option Cause;
  os_Create : string -> World -> (File + Cause) * World;
  Template_Execute :
    Template -> File -> list Feedback -> World -> option Cause * World;
  File_Close : File -> World -> option Cause * World
}.

(** Errors of the command: an error of a library, or one wrapped by
    [errors.Wrap(err, message)] or [errors.Wrapf(err, format, a)]. *)
Inductive cmdError {env : Env} : Type :=
| External (c : Cause)
| Wrap (err : cmdError) (message : string)
| Wrapf (err : cmdError) (format : string) (a : string).

(** An argument of [log.Printf]. *)
Inductive logArg {env : Env} : Type :=
| ArgString (s : string)
| ArgError (err : cmdError)
| ArgMarshalError (err : error).

Inductive event {env : Env} : Type :=
| EvParseFiles (path : string)
| EvReadDir (dir : string)
| EvReadFile (name : string) (r : string + Cause)
| EvCreate (path : string)
| EvExecute (reports : list Feedback)
| EvClose
| EvLog (format : string) (args : list logArg).

(** A computation with effects: from the world before to the result, the
    events it left, and the world after. *)
Definition IO {env : Env} (A : Type) : Type := World -> A * list event * World.

Definition valueOf {env : Env} {A : Type} (r : A * list event * World) : A :=
  fst (fst r).
Definition traceOf {env : Env} {A : Type} (r : A * list event * World) : list event :=
  snd (fst r).
Definition worldOf {env : Env} {A : Type} (r : A * list event * World) : World :=
  snd r.

Definition ret {env : Env} {A : Type} (a : A) : IO A := fun w => (a, [], w).

Definition bind {env : Env} {A B : Type} (m : IO A) (k : A -> IO B) : IO B :=
  fun w =>
    let '(a, t1, w1) := m w in
    let '(b, t2, w2) := k a w1 in
    (b, (t1 ++ t2)%list, w2).

(** A library call: its result is recorded by [ev]. *)
Definition call {env : Env} {A : Type} (ev : A -> event) (op : World -> A * World)
  : IO A :=
  fun w => let '(a, w1) := op w in (a, [ev a], w1).

(** [log.Printf(format, args...)] *)
Definition log_Printf {env : Env} (format : string) (args : list logArg) : IO unit :=
  fun w => (tt, [EvLog format args], w).

Declare Scope io_scope.
Notation "x <- m ;; k" := (bind m (fun x => k))
  (at level 61, m at next level, right associativity) : io_scope.
Notation "m ;;; k" := (bind m (fun _ => k))
  (at level 61, right associativity) : io_scope.
Open Scope io_scope.

(** ** The command reports2html *)

(** The function registered as "string" in the template's [FuncMap]: the
    text of a [TextMarshaler], or the empty string and a log line when
    [MarshalText] returns an error. *)
Definition FuncMap_string {env : Env} {A : Type}
           (MarshalText : A -> string * option error) (val : A)
  : IO string :=
  let '(text, err) := MarshalText val in
  match err with
  | Some e =>
      log_Printf "ERROR marshal text: %v" [ArgMarshalError e] ;;;
      ret EmptyString
  | None => ret text
  end.

Definition loadTemplate {env : Env} (templatePath : string) : IO (Template + cmdError) :=
  r <- call (fun _ => EvParseFiles templatePath)
            (template_ParseFiles templatePath) ;;
  match r with
  | inr err =>
      ret (inr (Wrapf (External err) "template parse %q" templatePath))
  | inl t => ret (inl t)
  end.

(** The loop of [readReports] over the entries of the directory, with the
    reports collected so far.  As in the source, a file is read under the
    name of its entry, [f.Name()], not under a path made with [dir]. *)
Fixpoint readReports_range {env : Env} (files : list string) (result : list Feedback)
  : IO (list Feedback * option cmdError) :=
  match files with
  | [] => ret (result, None)
  | f :: rest =>
      if negb (HasSuffix f ".xml") then readReports_range rest result
      else
        c <- call (EvReadFile f) (ioutil_ReadFile f) ;;
        match c with
        | inr err =>
            ret (result, Some (Wrapf (External err) "read file %q" f))
        | inl content =>
            match xml_Unmarshal content Feedback_zero with
            | (feedback, Some err) =>
                ret (result,
                     Some (Wrapf (External err) "xml unmarshal %q" f))
            | (feedback, None) =>
                readReports_range rest (result ++ [feedback])%list
            end
        end
  end.

(** [readReports]: the nil slice returned with the error of [ReadDir] is
    the empty list. *)
Definition readReports {env : Env} (dir : string)
  : IO (list Feedback * option cmdError) :=
  r <- call (fun _ => EvReadDir dir) (ioutil_ReadDir dir) ;;
  match r with
  | inr err => ret ([], Some (Wrap (External err) "read dir"))
  | inl files => readReports_range files []
  end.

(** In the branch of the failed [Execute] the name [err] is the error of
    [Execute], declared by the [if] statement, and it is this one that the
    log line prints when [Close] fails too. *)
Definition executeTemplate {env : Env} (filePath : string) (template : Template)
           (reports : list Feedback) : IO (option cmdError) :=
  f <- call (fun _ => EvCreate filePath) (os_Create filePath) ;;
  match f with
  | inr err => ret (Some (Wrapf (External err) "open file %q" filePath))
  | inl file =>
      x <- call (fun _ => EvExecute reports)
                (Template_Execute template file reports) ;;
      match x with
      | Some err =>
          c <- call (fun _ => EvClose) (File_Close file) ;;
          match c with
          | Some err2 =>
              log_Printf "ERROR close file %q: %v"
                [ArgString filePath; ArgError (External err)]
          | None => ret tt
          end ;;;
          ret (Some (Wrap (External err) "template execute"))
      | None =>
          c <- call (fun _ => EvClose) (File_Close file) ;;
          match c with
          | Some err =>
              ret (Some (Wrapf (External err) "close file %q" filePath))
          | None => ret None
          end
      end
  end.

Definition run {env : Env} (templatePath reportsPath outPath : string)
  : IO (option cmdError) :=
  log_Printf "Loading template from %q..." [ArgString templatePath] ;;;
  t <- loadTemplate templatePath ;;
  match t with
  | inr err => ret (Some (Wrap err "read reports"))
  | inl template =>
      log_Printf "Loading reports from %q..." [ArgString reportsPath] ;;;
      r <- readReports reportsPath ;;
      match r with
      | (reports, Some err) => ret (Some (Wrap err "read reports"))
      | (reports, None) =>
          log_Printf "Rendering template to %q..." [ArgString outPath] ;;;
          e <- executeTemplate outPath template reports ;;
          match e with
          | Some err => ret (Some (Wrap err "read reports"))
          | None => ret None
          end
      end
  end.

(** The names passed to [ioutil.ReadFile], in the order of the calls. *)
Fixpoint filesRead {env : Env} (t : list event) : list string :=
  match t with
  | [] => []
  | EvReadFile name _ :: t' => name :: filesRead t'
  | _ :: t' => filesRead t'
  end.

(** The contents returned by the calls of [ioutil.ReadFile] that
    succeeded, in the order of the calls. *)
Fixpoint contentsRead {env : Env} (t : list event) : list string :=
  match t with
  | [] => []
  | EvReadFile _ (inl content) :: t' => content :: contentsRead t'
  | _ :: t' => contentsRead t'
  end.

Definition isClose {env : Env} (ev : event) : bool :=
  match ev with EvClose => true | _ => false end.

Definition isXML (name : string) : bool := HasSuffix name ".xml".

(** The report decoded from the content of a file. *)
Definition decodeReport {env : Env} (content : string) : Feedback :=
  fst (xml_Unmarshal content Feedback_zero).

(** The event of a call of [ioutil.ReadFile] that returned the content of
    the entry [(name, content)]. *)
Definition readOK {env : Env} (entry : string * string) : event :=
  EvReadFile (fst entry) (inl (snd entry)).

(** ** A small world for running the command

    The file system is a list of entries, a name with its content or with
    nothing when the file cannot be read; errors are messages; a report is
    the text it was decoded from, and a content decodes when it starts
    with "<feedback>"; the template "broken.html" fails to execute, the
    template "missing.html" does not exist, and the output "full.html"
    fails to close. *)
Definition toy_lookup (name : string) (w : list (string * option string))
  : option string :=
  match find (fun entry => String.eqb (fst entry) name) w with
  | Some (_, Some content) => Some content
  | _ => None
  end.

Definition toyEnv : Env := {|
  World := list (string * option string);
  Cause := string;
  Feedback := string;
  Feedback_zero := EmptyString;
  Template := string;
  File := string;
  template_ParseFiles path w :=
    if String.eqb path "missing.html" then (inr "no such file", w)
    else (inl path, w);
  ioutil_ReadDir dir w :=
    if String.eqb dir "missing" then (inr "no such directory", w)
    else (inl (map fst w), w);
  ioutil_ReadFile name w :=
    match toy_lookup name w with
    | Some content => (inl content, w)
    | None => (inr "permission denied", w)
    end;
  xml_Unmarshal content v :=
    if prefix "<feedback>" content then (content, None)
    else (v, Some "EOF");
  os_Create path w :=
    if String.eqb path "/" then (inr "is a directory", w)
    else (inl path, w);
  Template_Execute template file reports w :=
    if String.eqb template "broken.html" then (Some "no such field", w)
    else (None, w);
  File_Close file w :=
    if String.eqb file "full.html" then (Some "disk full", w)
    else (None, w)
|}.

(** Two reports, a text file, and a report written in upper case. *)
Definition toy_reports : list (string * option string) :=
  [ ("a.xml", Some "<feedback>a</feedback>");
    ("notes.txt", Some "notes");
    ("b.xml", Some "<feedback>b</feedback>");
    ("C.XML", Some "<feedback>c</feedback>") ].

(** The same directory with a report that cannot be decoded in the
    middle. *)
Definition toy_reports_bad : list (string * option string) :=
  [ ("a.xml", Some "<feedback>a</feedback>");
    ("bad.xml", Some "not a report");
    ("b.xml", Some "<feedback>b</feedback>") ].

(** An instance of the non-ASCII branch of [strings.ToLower] for running
    the codecs on concrete tokens: it lowers ASCII letters and leaves every
    other byte alone. *)
Definition Map_lower_ascii_only (s : string) : string :=
  string_map lowerByte s.

Section Dmark.

(** [strings.Map(unicode.ToLower, s)], the branch of [strings.ToLower]
    taken for a string with a non-ASCII byte.  Unicode's case tables are
    not part of this development: the codecs are verified for every
    behaviour of this branch. *)
Variable Map_unicode_ToLower : string -> string.

(** [strings.ToLower] *)
Definition ToLower (s : string) : string :=
  let '(isASCII, hasUpper) := scanASCII s false in
  if isASCII then
    if negb hasUpper then s else string_map lowerByte s
  else Map_unicode_ToLower s.

(** *** Alignment *)

Definition Alignment := Z.
Definition AlignmentRelaxed : Alignment := 0.
Definition AlignmentStrict : Alignment := 1.

Definition Alignment_MarshalText (a : Alignment) : string * option error :=
  switch Z.eqb a
    [ (AlignmentRelaxed, ("relaxed", None));
      (AlignmentStrict, ("strict", None)) ]
    ("unknown", None).

Definition Alignment_UnmarshalText (a : Alignment) (text : string)
  : Alignment * option error :=
  switch String.eqb (ToLower text)
    [ ("r", (AlignmentRelaxed, None));
      ("s", (AlignmentStrict, None)) ]
    (a, Some (Errorf "unexpected Alignment value %q" text)).

(** *** Disposition *)

Definition Disposition := Z.
Definition DispositionNone : Disposition := 0.
Definition DispositionQuarantine : Disposition := 1.
Definition DispositionReject : Disposition := 2.

Definition Disposition_MarshalText (disp : Disposition)
  : string * option error :=
  switch Z.eqb disp
    [ (DispositionNone, ("none", None));
      (DispositionQuarantine, ("quarantine", None));
      (DispositionReject, ("reject", None)) ]
    ("unknown", None).

Definition Disposition_UnmarshalText (disp : Disposition) (text : string)
  : Disposition * option error :=
  switch String.eqb (ToLower text)
    [ ("none", (DispositionNone, None));
      ("quarantine", (DispositionQuarantine, None));
      ("reject", (DispositionReject, None)) ]
    (disp, Some (Errorf "unexpected Disposition value %q" text)).

(** *** Result *)

Definition Result := bool.

(** The switch is on the named result [text], which holds its zero value
    (nil, the empty string) when the body starts; the receiver is not
    read. *)
Definition Result_MarshalText (r : Result) : string * option error :=
  let text := EmptyString in
  switch String.eqb (ToLower text)
    [ ("true", ("true", None)) ]
    ("false", None).

Definition Result_UnmarshalText (r : Result) (text : string)
  : Result * option error :=
  (String.eqb (ToLower text) "pass", None).

(** *** PolicyOverride *)

Definition PolicyOverride := Z.
Definition PolicyOverrideForwarded : PolicyOverride := 0.
Definition PolicyOverrideSampledOut : PolicyOverride := 1.
Definition PolicyOverrideTrustedForwarder : PolicyOverride := 2.
Definition PolicyOverrideMailingList : PolicyOverride := 3.
Definition PolicyOverrideLocalPolicy : PolicyOverride := 4.
Definition PolicyOverrideOther : PolicyOverride := 5.

Definition PolicyOverride_MarshalText (po : PolicyOverride)
  : string * option error :=
  switch Z.eqb po
    [ (PolicyOverrideForwarded, ("forwarded", None));
      (PolicyOverrideSampledOut, ("sampled_out", None));
      (PolicyOverrideTrustedForwarder, ("trusted_forwarder", None));
      (PolicyOverrideMailingList, ("mailing_list", None));
      (PolicyOverrideLocalPolicy, ("local_policy", None));
      (PolicyOverrideOther, ("other", None)) ]
    ("unknown", None).

Definition PolicyOverride_UnmarshalText (po : PolicyOverride) (text : string)
  : PolicyOverride * option error :=
  switch String.eqb (ToLower text)
    [ ("forwarded", (PolicyOverrideForwarded, None));
      ("sampled_out", (PolicyOverrideSampledOut, None));
      ("trusted_forwarder", (PolicyOverrideTrustedForwarder, None));
      ("mailing_list", (PolicyOverrideMailingList, None));
      ("local_policy", (PolicyOverrideLocalPolicy, None));
      ("other", (PolicyOverrideOther, None)) ]
    (po, Some (Errorf "unexpected PolicyOverride value %q" text)).

(** *** DKIMResult *)

Definition DKIMResult := Z.
Definition DKIMResultNone : DKIMResult := 0.
Definition DKIMResultPass : DKIMResult := 1.
Definition DKIMResultFail : DKIMResult := 2.
Definition DKIMResultPolicy : DKIMResult := 3.
Definition DKIMResultNeutral : DKIMResult := 4.
Definition DKIMResultTempError : DKIMResult := 5.
Definition DKIMResultPermError : DKIMResult := 6.

Definition DKIMResult_MarshalText (dkimr : DKIMResult)
  : string * option error :=
  switch Z.eqb dkimr
    [ (DKIMResultNone, ("none", None));
      (DKIMResultPass, ("pass", None));
      (DKIMResultFail, ("fail", None));
      (DKIMResultPolicy, ("policy", None));
      (DKIMResultNeutral, ("neutral", None));
      (DKIMResultTempError, ("temperror", None));
      (DKIMResultPermError, ("permerror", None)) ]
    ("unknown", None).

Definition DKIMResult_UnmarshalText (dkimr : DKIMResult) (text : string)
  : DKIMResult * option error :=
  switch String.eqb (ToLower text)
    [ ("none", (DKIMResultNone, None));
      ("pass", (DKIMResultPass, None));
      ("fail", (DKIMResultFail, None));
      ("policy", (DKIMResultPolicy, None));
      ("neutral", (DKIMResultNeutral, None));
      ("temperror", (DKIMResultTempError, None));
      ("permerror", (DKIMResultPermError, None)) ]
    (dkimr, Some (Errorf "unexpected SPFResult value %q" text)).

(** *** SPFDomainScope *)

Definition SPFDomainScope := Z.
Definition SPFDomainScopeHelo : SPFDomainScope := 0.
Definition SPFDomainScopeMFrom : SPFDomainScope := 1.

Definition SPFDomainScope_MarshalText (sds : SPFDomainScope)
  : string * option error :=
  switch Z.eqb sds
    [ (SPFDomainScopeHelo, ("helo", None));
      (SPFDomainScopeMFrom, ("mfrom", None)) ]
    ("unknown", None).

Definition SPFDomainScope_UnmarshalText (sds : SPFDomainScope) (text : string)
  : SPFDomainScope * option error :=
  switch String.eqb (ToLower text)
    [ ("helo", (SPFDomainScopeHelo, None));
      ("mfrom", (SPFDomainScopeMFrom, None)) ]
    (sds, Some (Errorf "unexpected SPFDomainScope value %q" text)).

(** *** SPFResult *)

Definition SPFResult := Z.
Definition SPFResultNone : SPFResult := 0.
Definition SPFResultNeutral : SPFResult := 1.
Definition SPFResultPass : SPFResult := 2.
Definition SPFResultFail : SPFResult := 3.
Definition SPFResultSoftFail : SPFResult := 4.
Definition SPFResultTempError : SPFResult := 5.
Definition SPFResultPermError : SPFResult := 6.

Definition SPFResult_MarshalText (spfr : SPFResult)
  : string * option error :=
  switch Z.eqb spfr
    [ (SPFResultNone, ("none", None));
      (SPFResultNeutral, ("neutral", None));
      (SPFResultPass, ("pass", None));
      (SPFResultFail, ("fail", None));
      (SPFResultSoftFail, ("softfail", None));
      (SPFResultTempError, ("temperror", None));
      (SPFResultPermError, ("permerror", None)) ]
    ("unknown", None).

Definition SPFResult_UnmarshalText (spfr : SPFResult) (text : string)
  : SPFResult * option error :=
  switch String.eqb (ToLower text)
    [ ("none", (SPFResultNone, None));
      ("neutral", (SPFResultNeutral, None));
      ("pass", (SPFResultPass, None));
      ("fail", (SPFResultFail, None));
      ("softfail", (SPFResultSoftFail, None));
      ("temperror", (SPFResultTempError, None));
      ("permerror", (SPFResultPermError, None)) ]
    (spfr, Some (Errorf "unexpected SPFResult value %q" text)).

(** *** SPFAuthResult *)

Record SPFAuthResult : Type := mkSPFAuthResult {
  SPF_Domain : string;        (* Domain string         `xml:"domain"` *)
  SPF_Scope : SPFDomainScope; (* Scope  SPFDomainScope `xml:"scope"`  *)
  SPF_Result : SPFResult      (* Result SPFResult      `xml:"result"` *)
}.

(** The zero value [SPFAuthResult{}]: every field holds the zero value of
    its type. *)
Definition SPFAuthResult_zero : SPFAuthResult :=
  mkSPFAuthResult EmptyString 0 0.

(** Modelled from the spec: the reader that fills an [SPFAuthResult] from
    XML is not in the source (the command calls [xml.Unmarshal] of Go's
    encoding/xml).  The spec has the reader create the value fresh per
    document (section 3), delegate every enumerated field to its codec
    (section 2), ignore unrecognized elements (section 6), let a decode
    failure abort the decode (section 7), and leave an absent scope at the
    zero value (section 9, which records this default of the reader at
    hand and asks only a strict reimplementation to refuse the absence).
    So: the child elements [(name, text)] of the
    input element are taken in document order; an element named after a
    field hands its text to the field, for an enumerated field through its
    [UnmarshalText], whose error stops the decoding and is returned; any
    other element is skipped; a field without an element is not
    touched. *)
Fixpoint SPFAuthResult_decode (v : SPFAuthResult)
         (children : list (string * string)) : SPFAuthResult * option error :=
  match children with
  | [] => (v, None)
  | (name, text) :: rest =>
      if String.eqb name "domain" then
        SPFAuthResult_decode
          (mkSPFAuthResult text (SPF_Scope v) (SPF_Result v)) rest
      else if String.eqb name "scope" then
        match SPFDomainScope_UnmarshalText (SPF_Scope v) text with
        | (sds, None) =>
            SPFAuthResult_decode
              (mkSPFAuthResult (SPF_Domain v) sds (SPF_Result v)) rest
        | (sds, Some err) =>
            (mkSPFAuthResult (SPF_Domain v) sds (SPF_Result v), Some err)
        end
      else if String.eqb name "result" then
        match SPFResult_UnmarshalText (SPF_Result v) text with
        | (spfr, None) =>
            SPFAuthResult_decode
              (mkSPFAuthResult (SPF_Domain v) (SPF_Scope v) spfr) rest
        | (spfr, Some err) =>
            (mkSPFAuthResult (SPF_Domain v) (SPF_Scope v) spfr, Some err)
        end
      else SPFAuthResult_decode v rest
  end.

(** ** The six enumerations backed by [int], side by side

    The statements below range over the enumerations; [Enum] names them
    and the following tables collect, per enumeration, its two methods, the
    name of its Go type, its declared constants, and the tokens its
    [UnmarshalText] has a [case] for. *)

Inductive Enum : Type :=
| EAlignment | EDisposition | EPolicyOverride
| EDKIMResult | ESPFDomainScope | ESPFResult.

Definition MarshalText (E : Enum) : Z -> string * option error :=
  match E with
  | EAlignment => Alignment_MarshalText
  | EDisposition => Disposition_MarshalText
  | EPolicyOverride => PolicyOverride_MarshalText
  | EDKIMResult => DKIMResult_MarshalText
  | ESPFDomainScope => SPFDomainScope_MarshalText
  | ESPFResult => SPFResult_MarshalText
  end.

Definition UnmarshalText (E : Enum) : Z -> string -> Z * option error :=
  match E with
  | EAlignment => Alignment_UnmarshalText
  | EDisposition => Disposition_UnmarshalText
  | EPolicyOverride => PolicyOverride_UnmarshalText
  | EDKIMResult => DKIMResult_UnmarshalText
  | ESPFDomainScope => SPFDomainScope_UnmarshalText
  | ESPFResult => SPFResult_UnmarshalText
  end.

Definition typeName (E : Enum) : string :=
  match E with
  | EAlignment => "Alignment"
  | EDisposition => "Disposition"
  | EPolicyOverride => "PolicyOverride"
  | EDKIMResult => "DKIMResult"
  | ESPFDomainScope => "SPFDomainScope"
  | ESPFResult => "SPFResult"
  end.

(** The format string of the error of each [UnmarshalText]. *)
Definition errorFormat (E : Enum) : string :=
  match E with
  | EAlignment => "unexpected Alignment value %q"
  | EDisposition => "unexpected Disposition value %q"
  | EPolicyOverride => "unexpected PolicyOverride value %q"
  | EDKIMResult => "unexpected SPFResult value %q"
  | ESPFDomainScope => "unexpected SPFDomainScope value %q"
  | ESPFResult => "unexpected SPFResult value %q"
  end.

Definition members (E : Enum) : list Z :=
  match E with
  | EAlignment => [AlignmentRelaxed; AlignmentStrict]
  | EDisposition =>
      [DispositionNone; DispositionQuarantine; DispositionReject]
  | EPolicyOverride =>
      [PolicyOverrideForwarded; PolicyOverrideSampledOut;
       PolicyOverrideTrustedForwarder; PolicyOverrideMailingList;
       PolicyOverrideLocalPolicy; PolicyOverrideOther]
  | EDKIMResult =>
      [DKIMResultNone; DKIMResultPass; DKIMResultFail; DKIMResultPolicy;
       DKIMResultNeutral; DKIMResultTempError; DKIMResultPermError]
  | ESPFDomainScope => [SPFDomainScopeHelo; SPFDomainScopeMFrom]
  | ESPFResult =>
      [SPFResultNone; SPFResultNeutral; SPFResultPass; SPFResultFail;
       SPFResultSoftFail; SPFResultTempError; SPFResultPermError]
  end.

Definition vocabulary (E : Enum) : list (string * Z) :=
  match E with
  | EAlignment => [("r", AlignmentRelaxed); ("s", AlignmentStrict)]
  | EDisposition =>
      [("none", DispositionNone); ("quarantine", DispositionQuarantine);
       ("reject", DispositionReject)]
  | EPolicyOverride =>
      [("forwarded", PolicyOverrideForwarded);
       ("sampled_out", PolicyOverrideSampledOut);
       ("trusted_forwarder", PolicyOverrideTrustedForwarder);
       ("mailing_list", PolicyOverrideMailingList);
       ("local_policy", PolicyOverrideLocalPolicy);
       ("other", PolicyOverrideOther)]
  | EDKIMResult =>
      [("none", DKIMResultNone); ("pass", DKIMResultPass);
       ("fail", DKIMResultFail); ("policy", DKIMResultPolicy);
       ("neutral", DKIMResultNeutral); ("temperror", DKIMResultTempError);
       ("permerror", DKIMResultPermError)]
  | ESPFDomainScope =>
      [("helo", SPFDomainScopeHelo); ("mfrom", SPFDomainScopeMFrom)]
  | ESPFResult =>
      [("none", SPFResultNone); ("neutral", SPFResultNeutral);
       ("pass", SPFResultPass); ("fail", SPFResultFail);
       ("softfail", SPFResultSoftFail); ("temperror", SPFResultTempError);
       ("permerror", SPFResultPermError)]
  end.

(** The tokens of the boolean [Result]: true is pass, false is fail. *)
Definition Result_vocabulary : list (string * Result) :=
  [("pass", true); ("fail", false)].

(** An error names the type [E] and carries the raw token [text]. *)
Definition identifies (E : Enum) (text : string) (e : error) : Prop :=
  Contains (format_of e) (typeName E) = true /\ arg_of e = text.

(** The stored value after [UnmarshalText] calls on the tokens [ts], one
    after the other on the same receiver, whether they fail or not. *)
Definition UnmarshalText_all (E : Enum) (v : Z) (ts : list string) : Z :=
  fold_left (fun stored t => fst (UnmarshalText E stored t)) ts v.

(** * Properties *)

(** ** [strings.ToLower] on ASCII input *)

Lemma lowerByte_RuneSelf (c : ascii) :
  (RuneSelf <=? byteval (lowerByte c))%N = (RuneSelf <=? byteval c)%N.
Proof.
  destruct c as [[] [] [] [] [] [] [] []]; reflexivity.
Qed.

Lemma lowerByte_fixed (c : ascii) : isUpper c = false -> lowerByte c = c.
Proof.
  unfold lowerByte; intros ->; reflexivity.
Qed.

Lemma scanASCII_isASCII (s : string) (h h' : bool) :
  fst (scanASCII s h) = fst (scanASCII s h').
Proof.
  revert h h'; induction s as [|c s IH]; intros h h'; simpl.
  - reflexivity.
  - destruct (RuneSelf <=? byteval c)%N; [reflexivity | apply IH].
Qed.

Lemma scanASCII_no_upper (s : string) (h : bool) :
  scanASCII s h = (true, false) ->
  h = false /\ string_map lowerByte s = s.
Proof.
  revert h; induction s as [|c s IH]; intros h; simpl.
  - intros [= ->]; split; reflexivity.
  - destruct (RuneSelf <=? byteval c)%N; [discriminate|].
    intros Hs. destruct (IH _ Hs) as [Hor Hmap].
    apply orb_false_iff in Hor as [-> Hc].
    rewrite Hmap, (lowerByte_fixed c Hc); split; reflexivity.
Qed.

(** On a string of ASCII bytes [ToLower] lowers each byte. *)
Lemma ToLower_ASCII (s : string) :
  fst (scanASCII s false) = true -> ToLower s = string_map lowerByte s.
Proof.
  unfold ToLower. destruct (scanASCII s false) as [a u] eqn:Hs; simpl.
  intros ->. destruct u; simpl; [reflexivity|].
  symmetry; apply (scanASCII_no_upper s false Hs).
Qed.

Lemma sameUpToCase_isASCII (t u : string) (h h' : bool) :
  sameUpToCase t u = true -> fst (scanASCII t h) = fst (scanASCII u h').
Proof.
  revert u h h'; induction t as [|c t IH]; intros [|d u] h h'; simpl;
    try discriminate; [reflexivity|].
  intros H; apply andb_true_iff in H as [Hc Ht].
  apply Ascii.eqb_eq in Hc.
  rewrite <- (lowerByte_RuneSelf c), Hc, lowerByte_RuneSelf.
  destruct (RuneSelf <=? byteval d)%N; [reflexivity | apply IH, Ht].
Qed.

Lemma sameUpToCase_lower (t u : string) :
  sameUpToCase t u = true -> string_map lowerByte t = string_map lowerByte u.
Proof.
  revert u; induction t as [|c t IH]; intros [|d u]; simpl;
    try discriminate; [reflexivity|].
  intros H; apply andb_true_iff in H as [Hc Ht].
  apply Ascii.eqb_eq in Hc. rewrite Hc, (IH _ Ht); reflexivity.
Qed.

(** A token that differs only in case from an ASCII token has the same
    lower case form. *)
Lemma ToLower_sameUpToCase (t u : string) :
  sameUpToCase t u = true -> fst (scanASCII u false) = true ->
  ToLower t = ToLower u.
Proof.
  intros H Hu.
  rewrite (ToLower_ASCII u Hu), ToLower_ASCII.
  - apply sameUpToCase_lower, H.
  - rewrite (sameUpToCase_isASCII t u false false H); exact Hu.
Qed.

Lemma ToLower_fixed (u : string) :
  scanASCII u false = (true, false) -> ToLower u = u.
Proof.
  unfold ToLower; intros ->; reflexivity.
Qed.

(** ** The switch *)

Lemma switch_default {K A : Type} (eqb : K -> K -> bool) (tag : K)
      (cases : list (K * A)) (default : A) :
  (forall k, In k (map fst cases) -> eqb tag k = false) ->
  switch eqb tag cases default = default.
Proof.
  induction cases as [|[k body] rest IH]; simpl; intros H; [reflexivity|].
  rewrite (H k (or_introl eq_refl)). apply IH; intros k' Hk'; apply H; auto.
Qed.

Lemma switch_case {K A : Type} (eqb : K -> K -> bool) (tag : K)
      (cases : list (K * A)) (default : A) :
  (exists k body, In (k, body) cases /\ eqb tag k = true /\
                  switch eqb tag cases default = body) \/
  ((forall k, In k (map fst cases) -> eqb tag k = false) /\
   switch eqb tag cases default = default).
Proof.
  induction cases as [|[k body] rest IH]; simpl.
  - right; split; [intros k [] | reflexivity].
  - destruct (eqb tag k) eqn:Hk.
    + left; exists k, body; auto.
    + destruct IH as [(k' & b' & Hin & Heq & Hsw) | [Hno Hsw]].
      * left; exists k', b'; auto.
      * right; split; [|exact Hsw].
        intros k' [<- | Hin]; [exact Hk | apply Hno, Hin].
Qed.

(** Every [UnmarshalText] is one switch on the lower case form of the
    token over the vocabulary of its enumeration. *)
Lemma UnmarshalText_switch (E : Enum) (v : Z) (text : string) :
  UnmarshalText E v text =
  switch String.eqb (ToLower text)
    (map (fun '(tok, m) => (tok, (m, None))) (vocabulary E))
    (v, Some (Errorf (errorFormat E) text)).
Proof.
  destruct E; reflexivity.
Qed.

Lemma UnmarshalText_cases (E : Enum) (v : Z) (text : string) :
  (exists m, In (ToLower text, m) (vocabulary E) /\
             UnmarshalText E v text = (m, None)) \/
  (~ In (ToLower text) (map fst (vocabulary E)) /\
   UnmarshalText E v text = (v, Some (Errorf (errorFormat E) text))).
Proof.
  rewrite UnmarshalText_switch.
  match goal with |- context [switch ?e ?t ?c ?d] =>
    destruct (switch_case e t c d) as [(k & body & Hin & Hk & Hsw) | [Hno Hsw]]
  end.
  - left. apply in_map_iff in Hin as [[tok m] [Heq Hin]].
    injection Heq as <- <-. apply String.eqb_eq in Hk; subst tok.
    exists m; auto.
  - right; split; [|exact Hsw].
    intros Hin. rewrite map_map in Hno.
    assert (Hfalse : String.eqb (ToLower text) (ToLower text) = false).
    { apply Hno. apply in_map_iff in Hin as [[tok m] [Heq Hin]].
      apply in_map_iff; exists (tok, m); auto. }
    rewrite String.eqb_refl in Hfalse; discriminate.
Qed.

(** The vocabulary has one member per token. *)
Lemma vocabulary_functional (E : Enum) (tok : string) (m m' : Z) :
  In (tok, m) (vocabulary E) -> In (tok, m') (vocabulary E) -> m = m'.
Proof.
  destruct E; simpl; intros H H';
    repeat (destruct H as [H|H]; [injection H as <- <- |]); try contradiction;
    repeat destruct H' as [H'|H']; try contradiction; congruence.
Qed.

Lemma UnmarshalText_accepts (E : Enum) (v : Z) (text : string) (m : Z) :
  In (ToLower text, m) (vocabulary E) -> UnmarshalText E v text = (m, None).
Proof.
  intros Hin.
  destruct (UnmarshalText_cases E v text) as [(m' & Hin' & ->) | [Hno _]].
  - rewrite (vocabulary_functional E _ _ _ Hin Hin'); reflexivity.
  - exfalso; apply Hno. apply in_map_iff; exists (ToLower text, m); auto.
Qed.

Lemma UnmarshalText_rejects (E : Enum) (v : Z) (text : string) :
  ~ In (ToLower text) (map fst (vocabulary E)) ->
  UnmarshalText E v text = (v, Some (Errorf (errorFormat E) text)).
Proof.
  intros Hno.
  destruct (UnmarshalText_cases E v text) as [(m & Hin & _) | [_ H]];
    [|exact H].
  exfalso; apply Hno. apply in_map_iff; exists (ToLower text, m); auto.
Qed.

(** The tokens of every vocabulary are lower case ASCII. *)
Lemma vocabulary_lowercase (E : Enum) (tok : string) (m : Z) :
  In (tok, m) (vocabulary E) -> scanASCII tok false = (true, false).
Proof.
  destruct E; simpl; intros H;
    repeat (destruct H as [H|H]; [injection H as <- <-; reflexivity |]);
    contradiction.
Qed.

(** A rejected token leaves an error that names the enumeration and
    carries the raw token, for the five enumerations other than
    DKIMResult. *)
Lemma UnmarshalText_error_identifies (E : Enum) (v : Z) (text : string)
      (e : error) :
  E <> EDKIMResult ->
  snd (UnmarshalText E v text) = Some e -> identifies E text e.
Proof.
  intros HE Herr.
  destruct (UnmarshalText_cases E v text) as [(m & _ & Heq) | [_ Heq]];
    rewrite Heq in Herr; simpl in Herr; [discriminate|].
  injection Herr as <-.
  destruct E; try (split; reflexivity). contradiction.
Qed.

Lemma SPFAuthResult_decode_keeps_scope (children : list (string * string)) :
  forall v : SPFAuthResult,
  (forall text, ~ In ("scope", text) children) ->
  SPF_Scope (fst (SPFAuthResult_decode v children)) = SPF_Scope v.
Proof.
  induction children as [|[name text] rest IH]; intros v Hno; simpl.
  - reflexivity.
  - assert (Hrest : forall text', ~ In ("scope", text') rest).
    { intros text' Hin; apply (Hno text'); right; exact Hin. }
    destruct (String.eqb name "domain").
    { rewrite IH by exact Hrest; reflexivity. }
    destruct (String.eqb_spec name "scope") as [-> | _].
    { exfalso; apply (Hno text); left; reflexivity. }
    destruct (String.eqb name "result"); [|apply IH, Hrest].
    destruct (SPFResult_UnmarshalText (SPF_Result v) text) as [spfr [err|]].
    + reflexivity.
    + rewrite IH by exact Hrest; reflexivity.
Qed.

(** ** The claims *)

(** C1 (amended).  For Disposition, PolicyOverride, DKIMResult,
    SPFDomainScope and SPFResult and every declared member [m], decoding
    the encoded token gives [m] back without an error, whatever was stored
    before.  For Alignment the encoded token ("relaxed" or "strict") is
    not a token of the decoder, which rejects it and leaves the stored
    value alone.  For all six the encoded token has no upper case letter
    and is its own lower case form. *)
Theorem roundtrip_strict_codecs (E : Enum) (m v : Z) :
  In m (members E) ->
  isLowercase (fst (MarshalText E m)) = true /\
  ToLower (fst (MarshalText E m)) = fst (MarshalText E m) /\
  (E <> EAlignment ->
   UnmarshalText E v (fst (MarshalText E m)) = (m, None)) /\
  (E = EAlignment ->
   UnmarshalText E v (fst (MarshalText E m)) =
   (v, Some (Errorf "unexpected Alignment value %q" (fst (MarshalText E m))))).
Proof.
  destruct E; simpl; intros H;
    repeat (destruct H as [<- | H]); try contradiction;
    repeat split; try reflexivity; intros HE;
    solve [reflexivity | discriminate HE | contradiction HE; reflexivity].
Qed.

(** C2.  [Result.MarshalText] switches on the lower case form of its named
    result [text], which is empty when the switch runs: for every [r],
    true or false, it returns the token "false" and a nil error, so the
    value true is not encoded as "true". *)
Theorem Result_MarshalText_always_false (r : Result) :
  Result_MarshalText r = ("false", None) /\
  fst (Result_MarshalText true) <> "true".
Proof.
  split; [reflexivity | discriminate].
Qed.

(** C3 (amended).  [Result.UnmarshalText] never returns an error, and
    stores true if and only if the lower case form of the token is "pass":
    a token that differs from "pass" only in case stores true, every other
    token stores false. *)
Theorem Result_UnmarshalText_total (r : Result) (t : string) :
  snd (Result_UnmarshalText r t) = None /\
  (fst (Result_UnmarshalText r t) = true <-> ToLower t = "pass") /\
  (sameUpToCase t "pass" = true -> fst (Result_UnmarshalText r t) = true) /\
  (ToLower t <> "pass" -> fst (Result_UnmarshalText r t) = false).
Proof.
  unfold Result_UnmarshalText; simpl.
  split; [reflexivity|]. split; [apply String.eqb_eq|]. split.
  - intros H. rewrite (ToLower_sameUpToCase t "pass" H eq_refl).
    reflexivity.
  - intros H. apply String.eqb_neq, H.
Qed.

(** C4.  [Alignment.UnmarshalText] returns a nil error exactly when the
    lower case form of the token is "r" or "s", storing AlignmentRelaxed
    and AlignmentStrict; any other token is an error and the stored value
    stays, and that includes "relaxed" and "strict", the tokens that
    [Alignment.MarshalText] writes. *)
Theorem Alignment_UnmarshalText_accepts_r_s (a : Alignment) (t : string) :
  (snd (Alignment_UnmarshalText a t) = None <->
   ToLower t = "r" \/ ToLower t = "s") /\
  (ToLower t = "r" ->
   Alignment_UnmarshalText a t = (AlignmentRelaxed, None)) /\
  (ToLower t = "s" ->
   Alignment_UnmarshalText a t = (AlignmentStrict, None)) /\
  (ToLower t <> "r" -> ToLower t <> "s" ->
   Alignment_UnmarshalText a t =
   (a, Some (Errorf "unexpected Alignment value %q" t))) /\
  Alignment_MarshalText AlignmentRelaxed = ("relaxed", None) /\
  Alignment_MarshalText AlignmentStrict = ("strict", None) /\
  snd (Alignment_UnmarshalText a "relaxed") <> None /\
  snd (Alignment_UnmarshalText a "strict") <> None.
Proof.
  unfold Alignment_UnmarshalText at 1 2 3 4; simpl.
  destruct (String.eqb_spec (ToLower t) "r") as [Hr | Hr];
    [| destruct (String.eqb_spec (ToLower t) "s") as [Hs | Hs]];
    simpl; repeat split; intros; auto; try discriminate; try congruence.
  exfalso; destruct H; contradiction.
Qed.

(** C5.  [PolicyOverride.UnmarshalText] returns the unexpected-value error
    for every token whose lower case form is none of forwarded,
    sampled_out, trusted_forwarder, mailing_list, local_policy, other; and
    a token that is one of these six up to letter case is decoded, without
    an error, to the member of that name. *)
Theorem PolicyOverride_UnmarshalText_vocabulary
        (po : PolicyOverride) (t : string) :
  (~ In (ToLower t)
        ["forwarded"; "sampled_out"; "trusted_forwarder"; "mailing_list";
         "local_policy"; "other"] ->
   PolicyOverride_UnmarshalText po t =
   (po, Some (Errorf "unexpected PolicyOverride value %q" t))) /\
  (forall tok m,
     In (tok, m)
        [("forwarded", PolicyOverrideForwarded);
         ("sampled_out", PolicyOverrideSampledOut);
         ("trusted_forwarder", PolicyOverrideTrustedForwarder);
         ("mailing_list", PolicyOverrideMailingList);
         ("local_policy", PolicyOverrideLocalPolicy);
         ("other", PolicyOverrideOther)] ->
     sameUpToCase t tok = true ->
     PolicyOverride_UnmarshalText po t = (m, None)).
Proof.
  split.
  - intros Hno. apply (UnmarshalText_rejects EPolicyOverride), Hno.
  - intros tok m Hin Hsame.
    apply (UnmarshalText_accepts EPolicyOverride).
    pose proof (vocabulary_lowercase EPolicyOverride tok m Hin) as Hlow.
    rewrite (ToLower_sameUpToCase t tok Hsame), (ToLower_fixed tok Hlow);
      [exact Hin | rewrite Hlow; reflexivity].
Qed.

(** C6.  For each of the six enumerations backed by [int] and for every
    integer value, [MarshalText] returns a nil error, and the token is
    "unknown" exactly when the value is not one of the declared
    constants. *)
Theorem MarshalText_never_errors (E : Enum) (v : Z) :
  snd (MarshalText E v) = None /\
  (fst (MarshalText E v) = "unknown" <-> ~ In v (members E)).
Proof.
  destruct E; simpl;
    unfold Alignment_MarshalText, Disposition_MarshalText,
      PolicyOverride_MarshalText, DKIMResult_MarshalText,
      SPFDomainScope_MarshalText, SPFResult_MarshalText; simpl;
    repeat match goal with
           | |- context [Z.eqb v ?k] => destruct (Z.eqb_spec v k)
           end;
    simpl; (split; [reflexivity|]);
    (split; [ intros Htok; try discriminate Htok; intuition congruence
            | intros Hout; try reflexivity; exfalso; apply Hout; auto 10 ]).
Qed.

(** C7 (the code differs).  On a token outside its vocabulary
    [DKIMResult.UnmarshalText] returns the error of format
    "unexpected SPFResult value %q": it carries the raw token, and the
    enumeration it names is SPFResult, not DKIMResult.  Evaluated at the
    token "bogus". *)
Theorem DKIMResult_UnmarshalText_error_names_SPFResult :
  DKIMResult_UnmarshalText DKIMResultNone "bogus" =
  (DKIMResultNone, Some (Errorf "unexpected SPFResult value %q" "bogus")) /\
  Contains "unexpected SPFResult value %q" (typeName EDKIMResult) = false /\
  Contains "unexpected SPFResult value %q" (typeName ESPFResult) = true /\
  ~ identifies EDKIMResult "bogus"
      (Errorf "unexpected SPFResult value %q" "bogus").
Proof.
  repeat split; try reflexivity.
  intros [Hname _]; discriminate Hname.
Qed.

(** C8 (amended).  Decoding ignores letter case over the tokens each
    decoder has a case for.  For each of the six strict enumerations, a
    token that differs only in letter case from a token of the decoder is
    decoded, without an error, to the same member as that token; and for
    Result a token that differs only in case from "pass" or "fail" is
    decoded like it.  The tokens of the Alignment decoder are "r" and "s":
    a token that differs only in case from "relaxed" or "strict" is
    rejected with the unexpected Alignment error, as these two words are,
    and the stored value stays.  More generally, two ASCII tokens that
    differ only in letter case are both accepted, with the same member, or
    both rejected. *)
Theorem UnmarshalText_case_insensitive (t tok : string) :
  sameUpToCase t tok = true ->
  (forall E v m,
     In (tok, m) (vocabulary E) ->
     UnmarshalText E v t = (m, None) /\ UnmarshalText E v tok = (m, None)) /\
  (forall r b,
     In (tok, b) Result_vocabulary ->
     Result_UnmarshalText r t = (b, None) /\
     Result_UnmarshalText r tok = (b, None)) /\
  (forall E v,
     fst (scanASCII tok false) = true ->
     fst (UnmarshalText E v t) = fst (UnmarshalText E v tok) /\
     (snd (UnmarshalText E v t) = None <->
      snd (UnmarshalText E v tok) = None)) /\
  (forall a,
     In tok ["relaxed"; "strict"] ->
     Alignment_UnmarshalText a t =
     (a, Some (Errorf "unexpected Alignment value %q" t)) /\
     Alignment_UnmarshalText a tok =
     (a, Some (Errorf "unexpected Alignment value %q" tok))).
Proof.
  intros Hsame; split; [|split; [|split]].
  - intros E v m Hin.
    pose proof (vocabulary_lowercase E tok m Hin) as Hlow.
    assert (Htok : ToLower tok = tok) by apply (ToLower_fixed tok Hlow).
    assert (Ht : ToLower t = tok).
    { rewrite (ToLower_sameUpToCase t tok Hsame); [exact Htok|].
      rewrite Hlow; reflexivity. }
    split; apply UnmarshalText_accepts; [rewrite Ht | rewrite Htok];
      exact Hin.
  - intros r b Hin. unfold Result_UnmarshalText.
    destruct Hin as [Hin | [Hin | []]]; injection Hin as <- <-;
      rewrite (ToLower_sameUpToCase _ _ Hsame eq_refl);
      split; reflexivity.
  - intros E v Hascii.
    pose proof (ToLower_sameUpToCase t tok Hsame Hascii) as Hlow.
    destruct (UnmarshalText_cases E v t) as [(m & Hin & ->) | [Hno ->]];
      destruct (UnmarshalText_cases E v tok)
        as [(m' & Hin' & ->) | [Hno' ->]]; simpl.
    + rewrite Hlow in Hin.
      rewrite (vocabulary_functional E _ _ _ Hin Hin'); tauto.
    + exfalso; apply Hno'; rewrite <- Hlow.
      apply in_map_iff; exists (ToLower t, m); auto.
    + exfalso; apply Hno; rewrite Hlow.
      apply in_map_iff; exists (ToLower tok, m'); auto.
    + split; [reflexivity | split; discriminate].
  - intros a Hin.
    assert (Hlow : scanASCII tok false = (true, false)).
    { destruct Hin as [<- | [<- | []]]; reflexivity. }
    assert (Htok : ToLower tok = tok) by apply (ToLower_fixed tok Hlow).
    assert (Ht : ToLower t = tok).
    { rewrite (ToLower_sameUpToCase t tok Hsame); [exact Htok|].
      rewrite Hlow; reflexivity. }
    split; apply (UnmarshalText_rejects EAlignment);
      [rewrite Ht | rewrite Htok];
      destruct Hin as [<- | [<- | []]]; simpl;
      intros [H | [H | []]]; discriminate H.
Qed.

(** Without a scope element the only error of the decoding is the one of
    a result element whose text is not a token of SPFResult. *)
Lemma SPFAuthResult_decode_error (children : list (string * string)) :
  forall v : SPFAuthResult,
  (forall text, ~ In ("scope", text) children) ->
  (snd (SPFAuthResult_decode v children) = None <->
   forall text,
     In ("result", text) children ->
     In (ToLower text)
        ["none"; "neutral"; "pass"; "fail"; "softfail"; "temperror";
         "permerror"]) /\
  (forall e,
     snd (SPFAuthResult_decode v children) = Some e ->
     exists text,
       In ("result", text) children /\
       e = Errorf "unexpected SPFResult value %q" text).
Proof.
  induction children as [|[name text] rest IH]; intros v Hno.
  - simpl; split; [split; [intros _ text [] | reflexivity]|].
    intros e He; discriminate He.
  - assert (Hrest : forall text', ~ In ("scope", text') rest).
    { intros text' Hin; apply (Hno text'); right; exact Hin. }
    simpl SPFAuthResult_decode.
    destruct (String.eqb_spec name "domain") as [-> | Hdom].
    { destruct (IH (mkSPFAuthResult text (SPF_Scope v) (SPF_Result v))
                  Hrest) as [Hiff Herr].
      split.
      - rewrite Hiff; split; intros H text' Hin.
        + destruct Hin as [Hin | Hin]; [discriminate Hin | auto].
        + apply H; right; exact Hin.
      - intros e He. destruct (Herr e He) as (text' & Hin & ->).
        exists text'; split; [right; exact Hin | reflexivity]. }
    destruct (String.eqb_spec name "scope") as [-> | Hsc].
    { exfalso; apply (Hno text); left; reflexivity. }
    destruct (String.eqb_spec name "result") as [-> | Hres].
    + pose proof (UnmarshalText_cases ESPFResult (SPF_Result v) text)
        as Hc.
      change (UnmarshalText ESPFResult) with SPFResult_UnmarshalText in Hc.
      destruct Hc as [(m & Hin & ->) | [Hout ->]].
      * destruct (IH (mkSPFAuthResult (SPF_Domain v) (SPF_Scope v) m)
                    Hrest) as [Hiff Herr].
        assert (Htok : In (ToLower text)
                         (map fst (vocabulary ESPFResult))).
        { apply in_map_iff; exists (ToLower text, m); auto. }
        split.
        -- rewrite Hiff; split; intros H text' Hin'.
           ++ destruct Hin' as [Hin' | Hin']; [|auto].
              injection Hin' as <-; exact Htok.
           ++ apply H; right; exact Hin'.
        -- intros e He. destruct (Herr e He) as (text' & Hin' & ->).
           exists text'; split; [right; exact Hin' | reflexivity].
      * simpl; split.
        -- split; [discriminate|].
           intros H; exfalso; apply Hout.
           apply (H text); left; reflexivity.
        -- intros e [= <-]. exists text; split; [left|]; reflexivity.
    + destruct (IH v Hrest) as [Hiff Herr]. split.
      * rewrite Hiff; split; intros H text' Hin.
        -- destruct Hin as [Hin | Hin]; [|auto].
           injection Hin as Hn _; exfalso; apply Hres; exact Hn.
        -- apply H; right; exact Hin.
      * intros e He. destruct (Herr e He) as (text' & Hin & ->).
        exists text'; split; [right; exact Hin | reflexivity].
Qed.

(** C9.  The zero value of SPFDomainScope is SPFDomainScopeHelo: the scope
    of the zero [SPFAuthResult] is the helo member and is encoded as
    "helo" with a nil error.  An [SPFAuthResult] filled from input without
    a scope element still holds helo, encoded as "helo", and the missing
    scope is not reported: the decoding returns a nil error exactly when
    the text of every result element is a token of SPFResult, and an error
    it returns is the one of such a result element. *)
Theorem SPFDomainScope_zero_value_helo
        (children : list (string * string)) :
  (forall text, ~ In ("scope", text) children) ->
  SPF_Scope SPFAuthResult_zero = SPFDomainScopeHelo /\
  SPFDomainScope_MarshalText (SPF_Scope SPFAuthResult_zero) =
  ("helo", None) /\
  SPF_Scope (fst (SPFAuthResult_decode SPFAuthResult_zero children)) =
  SPFDomainScopeHelo /\
  SPFDomainScope_MarshalText
    (SPF_Scope (fst (SPFAuthResult_decode SPFAuthResult_zero children))) =
  ("helo", None) /\
  (snd (SPFAuthResult_decode SPFAuthResult_zero children) = None <->
   forall text,
     In ("result", text) children ->
     In (ToLower text)
        ["none"; "neutral"; "pass"; "fail"; "softfail"; "temperror";
         "permerror"]) /\
  (forall e,
     snd (SPFAuthResult_decode SPFAuthResult_zero children) = Some e ->
     exists text,
       In ("result", text) children /\
       e = Errorf "unexpected SPFResult value %q" text).
Proof.
  intros Hno.
  rewrite (SPFAuthResult_decode_keeps_scope children _ Hno).
  destruct (SPFAuthResult_decode_error children SPFAuthResult_zero Hno)
    as [Hiff Herr].
  repeat split; try apply Hiff; exact Herr.
Qed.

(** C10.  A failed decode leaves the stored value alone: for each of the
    six strict enumerations, every stored value [v] and every token on
    which [UnmarshalText] returns an error, the value stored after the
    call is [v]. *)
Theorem UnmarshalText_failure_atomic (E : Enum) (v : Z) (t : string) :
  snd (UnmarshalText E v t) <> None -> fst (UnmarshalText E v t) = v.
Proof.
  intros Herr.
  destruct (UnmarshalText_cases E v t) as [(m & _ & Heq) | [_ Heq]];
    rewrite Heq in *; simpl in *; [contradiction | reflexivity].
Qed.

(** ** Further properties of the codecs *)

Lemma vocabulary_members (E : Enum) (tok : string) (m : Z) :
  In (tok, m) (vocabulary E) -> In m (members E).
Proof.
  destruct E; simpl; intros H;
    repeat (destruct H as [H | H]; [injection H as <- <-; auto 10 |]);
    contradiction.
Qed.

Lemma members_vocabulary (E : Enum) (m : Z) :
  In m (members E) -> exists tok, In (tok, m) (vocabulary E).
Proof.
  destruct E; simpl; intros H;
    repeat (destruct H as [<- | H]; [eexists; simpl; eauto 10 |]);
    contradiction.
Qed.

Ltac case_members v :=
  repeat match goal with
         | |- context [Z.eqb v ?k] => destruct (Z.eqb_spec v k)
         end.

Ltac unfold_MarshalText :=
  unfold MarshalText, Alignment_MarshalText, Disposition_MarshalText,
    PolicyOverride_MarshalText, DKIMResult_MarshalText,
    SPFDomainScope_MarshalText, SPFResult_MarshalText; simpl.

(** The token written for a member is the one its decoder maps back to
    that member, except for Alignment, whose writer uses the long words. *)
Lemma MarshalText_vocabulary (E : Enum) (tok : string) (m : Z) :
  E <> EAlignment -> In (tok, m) (vocabulary E) ->
  MarshalText E m = (tok, None).
Proof.
  intros HE; destruct E; try contradiction; simpl; intros H;
    repeat (destruct H as [H | H]; [injection H as <- <-; reflexivity |]);
    contradiction.
Qed.

(** X1.  Decoding admits the declared members and nothing else: every
    member is what some token decodes to, whatever was stored before; and
    whatever an [UnmarshalText] call with a nil error stores, for any
    token and any value stored before, is a member. *)
Theorem UnmarshalText_image_is_members (E : Enum) :
  (forall m,
     In m (members E) ->
     exists t, forall v, UnmarshalText E v t = (m, None)) /\
  (forall v t,
     snd (UnmarshalText E v t) = None ->
     In (fst (UnmarshalText E v t)) (members E)).
Proof.
  split.
  - intros m Hm. destruct (members_vocabulary E m Hm) as [tok Hin].
    exists tok; intros v. apply UnmarshalText_accepts.
    rewrite (ToLower_fixed tok (vocabulary_lowercase E tok m Hin)).
    exact Hin.
  - intros v t Hok.
    destruct (UnmarshalText_cases E v t) as [(m' & Hin & Heq) | [_ Heq]];
      rewrite Heq in *; simpl in *; [|discriminate].
    apply (vocabulary_members E _ _ Hin).
Qed.

(** X2.  A field that starts from the zero value of its type holds a declared
    member after any number of [UnmarshalText] calls, failed ones
    included. *)
Theorem UnmarshalText_all_stores_member (E : Enum) (ts : list string) :
  In (UnmarshalText_all E 0 ts) (members E).
Proof.
  unfold UnmarshalText_all.
  assert (Hzero : In 0 (members E)) by (destruct E; simpl; auto).
  revert Hzero; generalize 0 as v.
  induction ts as [|t ts IH]; intros v Hv; simpl; [exact Hv|].
  apply IH.
  destruct (UnmarshalText_cases E v t) as [(m & Hin & ->) | [_ ->]]; simpl.
  - apply (vocabulary_members E _ _ Hin).
  - exact Hv.
Qed.

(** X3.  The outcome of [UnmarshalText] does not depend on the value stored
    before the call: the same tokens are accepted, with the same error
    otherwise, and an accepted token stores the same member. *)
Theorem UnmarshalText_ignores_stored_value (E : Enum) (v v' : Z)
        (t : string) :
  snd (UnmarshalText E v t) = snd (UnmarshalText E v' t) /\
  (snd (UnmarshalText E v t) = None ->
   UnmarshalText E v t = UnmarshalText E v' t).
Proof.
  destruct (UnmarshalText_cases E v t) as [(m & Hin & ->) | [Hno ->]].
  - rewrite (UnmarshalText_accepts E v' t m Hin); split; reflexivity.
  - rewrite (UnmarshalText_rejects E v' t Hno); simpl.
    split; [reflexivity | discriminate].
Qed.

(** X4.  Two values with the same token other than "unknown" are equal:
    [MarshalText] writes a different token for each declared member. *)
Theorem MarshalText_injective (E : Enum) (v v' : Z) :
  fst (MarshalText E v) = fst (MarshalText E v') ->
  fst (MarshalText E v) <> "unknown" -> v = v'.
Proof.
  destruct E; unfold_MarshalText; case_members v; simpl;
    intros Heq Hne; try (exfalso; apply Hne; reflexivity);
    revert Heq; case_members v'; simpl; intros Heq;
    solve [congruence | discriminate Heq].
Qed.

(** X5.  The declared members are the integers from 0 up to their number: the
    token is "unknown" exactly for a negative value or one at or past the
    number of members. *)
Theorem MarshalText_unknown_out_of_range (E : Enum) (v : Z) :
  fst (MarshalText E v) = "unknown" <->
  v < 0 \/ Z.of_nat (List.length (members E)) <= v.
Proof.
  destruct E; unfold_MarshalText; case_members v; simpl;
    (split; [intros H; try discriminate H | intros H; try reflexivity]);
    subst; unfold AlignmentRelaxed, AlignmentStrict, DispositionNone,
      DispositionQuarantine, DispositionReject, PolicyOverrideForwarded,
      PolicyOverrideSampledOut, PolicyOverrideTrustedForwarder,
      PolicyOverrideMailingList, PolicyOverrideLocalPolicy,
      PolicyOverrideOther, DKIMResultNone, DKIMResultPass, DKIMResultFail,
      DKIMResultPolicy, DKIMResultNeutral, DKIMResultTempError,
      DKIMResultPermError, SPFDomainScopeHelo, SPFDomainScopeMFrom,
      SPFResultNone, SPFResultNeutral, SPFResultPass, SPFResultFail,
      SPFResultSoftFail, SPFResultTempError, SPFResultPermError in *;
    lia.
Qed.

(** X6.  The token "unknown", written for a value outside the members, is
    rejected by the decoder of the same enumeration, which leaves the
    stored value alone. *)
Theorem unknown_token_rejected (E : Enum) (v w : Z) :
  ~ In v (members E) ->
  fst (MarshalText E v) = "unknown" /\
  UnmarshalText E w (fst (MarshalText E v)) =
  (w, Some (Errorf (errorFormat E) "unknown")).
Proof.
  intros Hout.
  assert (Htok : fst (MarshalText E v) = "unknown").
  { destruct E; unfold_MarshalText; case_members v; simpl;
      try reflexivity; exfalso; apply Hout; subst; simpl; auto 10. }
  rewrite Htok; split; [reflexivity|].
  apply UnmarshalText_rejects.
  destruct E; simpl; intuition discriminate.
Qed.

(** X7.  Writing what was just decoded gives the token in lower case, for the
    five enumerations other than Alignment; for Alignment it gives the
    long word of the letter: "relaxed" for r, "strict" for s. *)
Theorem MarshalText_after_UnmarshalText (E : Enum) (v : Z) (t : string) :
  snd (UnmarshalText E v t) = None ->
  (E <> EAlignment ->
   MarshalText E (fst (UnmarshalText E v t)) = (ToLower t, None)) /\
  (E = EAlignment ->
   MarshalText E (fst (UnmarshalText E v t)) =
   (if String.eqb (ToLower t) "r" then "relaxed" else "strict", None)).
Proof.
  intros Hok.
  destruct (UnmarshalText_cases E v t) as [(m & Hin & Heq) | [_ Heq]];
    rewrite Heq in *; simpl in *; [|discriminate].
  split; intros HE.
  - apply (MarshalText_vocabulary E _ _ HE Hin).
  - subst E; simpl in Hin.
    destruct Hin as [Hin | [Hin | []]]; injection Hin as Ht <-;
      rewrite <- Ht; reflexivity.
Qed.

(** X8.  Whatever [Result.MarshalText] writes is decoded to false, and so is
    the token "true": a Result that is true is not read back from its
    own encoding. *)
Theorem Result_true_not_restored (r r0 : Result) :
  Result_UnmarshalText r0 (fst (Result_MarshalText r)) = (false, None) /\
  Result_UnmarshalText r0 "true" = (false, None).
Proof.
  split; reflexivity.
Qed.

End Dmark.

(** * The command reports2html *)

(** ** [strings.HasSuffix] *)

Lemma string_length_append (p u : string) :
  String.length (p ++ u) = (String.length p + String.length u)%nat.
Proof.
  induction p as [|c p IH]; simpl; [reflexivity | rewrite IH; reflexivity].
Qed.

Lemma substring_all (u : string) : substring 0 (String.length u) u = u.
Proof.
  induction u as [|c u IH]; simpl; [reflexivity | rewrite IH; reflexivity].
Qed.

Lemma substring_after_prefix (p u : string) :
  substring (String.length p) (String.length u) (p ++ u) = u.
Proof.
  induction p as [|c p IH]; simpl; [apply substring_all | exact IH].
Qed.

Lemma substring_split (s : string) :
  forall n : nat, (n <= String.length s)%nat ->
  s = substring 0 n s ++ substring n (String.length s - n) s.
Proof.
  induction s as [|c s IH]; intros [|n] Hn; simpl in *.
  - reflexivity.
  - lia.
  - rewrite substring_all; reflexivity.
  - rewrite <- (IH n) by lia; reflexivity.
Qed.

(** [HasSuffix s suffix] holds exactly when [s] ends with [suffix]. *)
Lemma HasSuffix_iff (s suffix : string) :
  HasSuffix s suffix = true <-> exists p, s = p ++ suffix.
Proof.
  unfold HasSuffix; split.
  - intros H; apply andb_true_iff in H as [Hlen Heq].
    apply Nat.leb_le in Hlen. apply String.eqb_eq in Heq.
    exists (substring 0 (String.length s - String.length suffix) s).
    rewrite <- Heq at 2.
    apply substring_split; lia.
  - intros [p ->]. rewrite string_length_append.
    apply andb_true_iff; split; [apply Nat.leb_le; lia|].
    replace (String.length p + String.length suffix
             - String.length suffix)%nat with (String.length p) by lia.
    replace (String.length p + String.length suffix
             - String.length p)%nat with (String.length suffix) by lia.
    rewrite substring_after_prefix; apply String.eqb_refl.
Qed.

(** ** Sequencing *)

Lemma bind_run {env : Env} {A B : Type} (m : IO A) (k : A -> IO B)
      (w : World) :
  bind m k w =
  (valueOf (k (valueOf (m w)) (worldOf (m w))),
   (traceOf (m w) ++ traceOf (k (valueOf (m w)) (worldOf (m w))))%list,
   worldOf (k (valueOf (m w)) (worldOf (m w)))).
Proof.
  unfold bind, valueOf, traceOf, worldOf.
  destruct (m w) as [[a t1] w1]; simpl.
  destruct (k a w1) as [[b t2] w2]; reflexivity.
Qed.

Lemma call_run {env : Env} {A : Type} (ev : A -> event)
      (op : World -> A * World) (w : World) :
  call ev op w = (fst (op w), [ev (fst (op w))], snd (op w)).
Proof.
  unfold call; destruct (op w); reflexivity.
Qed.

(** ** The loop of [readReports] *)

(** The loop reads the entries whose name ends in ".xml", in order, up to
    the first one that cannot be read or decoded; the reports it returns
    are those decoded from the files read before that one. *)
Lemma readReports_range_spec {env : Env} (files : list string) :
  forall (result : list Feedback) (w : World),
  exists pre post,
    filter isXML files = (pre ++ post)%list /\
    filesRead (traceOf (readReports_range files result w)) = pre /\
    (forall ev, In ev (traceOf (readReports_range files result w)) ->
                exists name c, ev = EvReadFile name c) /\
    match snd (valueOf (readReports_range files result w)) with
    | None =>
        post = [] /\
        List.length
          (contentsRead (traceOf (readReports_range files result w))) =
        List.length pre /\
        fst (valueOf (readReports_range files result w)) =
        (result ++
         map decodeReport
           (contentsRead (traceOf (readReports_range files result w))))%list
    | Some e =>
        exists pre' name cause,
          pre = (pre' ++ [name])%list /\
          (List.length pre' <=
           List.length
             (contentsRead
                (traceOf (readReports_range files result w))))%nat /\
          fst (valueOf (readReports_range files result w)) =
          (result ++
           map decodeReport
             (firstn (List.length pre')
                (contentsRead
                   (traceOf (readReports_range files result w)))))%list /\
          (e = Wrapf (External cause) "read file %q" name \/
           e = Wrapf (External cause) "xml unmarshal %q" name)
    end.
Proof.
  induction files as [|f rest IH]; intros result w.
  - exists [], []; simpl. repeat split; try reflexivity.
    + intros ev [].
    + rewrite app_nil_r; reflexivity.
  - simpl. unfold isXML at 1.
    destruct (HasSuffix f ".xml") eqn:Hxml; simpl; [|apply IH].
    rewrite bind_run, call_run.
    unfold valueOf at 2 3 4 5 6 7, worldOf at 2 3 4 5 6 7; simpl.
    destruct (ioutil_ReadFile f w) as [[content | err] w1]; simpl.
    + destruct (xml_Unmarshal content Feedback_zero)
        as [feedback [err|]] eqn:Hdec.
      * exists [f], (filter isXML rest); simpl.
        repeat split; try reflexivity.
        { intros ev [<- | []]; eauto. }
        exists [], f, err; simpl. repeat split; try lia.
        { rewrite app_nil_r; reflexivity. }
        { right; reflexivity. }
      * destruct (IH (result ++ [feedback])%list w1)
          as (pre & post & Hfil & Hread & Hev & Hval).
        exists (f :: pre), post.
        unfold valueOf, traceOf in *; simpl.
        split; [rewrite Hfil; reflexivity|].
        split; [rewrite Hread; reflexivity|].
        split.
        { intros ev [<- | Hin]; [eauto | apply Hev, Hin]. }
        assert (Hfb : decodeReport content = feedback).
        { unfold decodeReport; rewrite Hdec; reflexivity. }
        destruct (snd (fst (fst (readReports_range rest
                                   (result ++ [feedback])%list w1))))
          as [e|].
        -- destruct Hval as (pre' & name & cause & Hpre & Hlen & Hres & He).
           exists (f :: pre'), name, cause; simpl.
           split; [rewrite Hpre; reflexivity|].
           split; [lia|].
           split; [|exact He].
           rewrite Hres, Hfb, <- app_assoc; reflexivity.
        -- destruct Hval as (Hpost & Hlen & Hres).
           split; [exact Hpost|].
           split; [simpl; rewrite Hlen; reflexivity|].
           rewrite Hres, Hfb, <- app_assoc; reflexivity.
    + exists [f], (filter isXML rest); simpl.
      repeat split; try reflexivity.
      { intros ev [<- | []]; eauto. }
      exists [], f, err; simpl. repeat split; try lia.
      { rewrite app_nil_r; reflexivity. }
      { left; reflexivity. }
Qed.

(** ** The template helper *)

Lemma MarshalText_nil_error (E : Enum) (v : Z) :
  snd (MarshalText E v) = None /\ fst (MarshalText E v) <> EmptyString.
Proof.
  destruct E; unfold MarshalText, Alignment_MarshalText,
    Disposition_MarshalText, PolicyOverride_MarshalText,
    DKIMResult_MarshalText, SPFDomainScope_MarshalText,
    SPFResult_MarshalText; simpl;
    repeat match goal with
           | |- context [Z.eqb v ?k] => destruct (Z.eqb_spec v k)
           end;
    simpl; split; solve [reflexivity | discriminate].
Qed.

(** X9.  The helper "string" of the template, applied to a value of one of the
    six enumerations backed by [int], returns the token of [MarshalText]:
    it writes no log line, leaves the world alone, and never returns the
    empty string with which it reports a failure.  Applied to a Result it
    returns "false". *)
Theorem FuncMap_string_of_enum {env : Env} (E : Enum) (v : Z)
        (w : World) :
  FuncMap_string (MarshalText E) v w = (fst (MarshalText E v), [], w) /\
  valueOf (FuncMap_string (MarshalText E) v w) <> EmptyString /\
  forall (lower : string -> string) (r : Result),
    FuncMap_string (Result_MarshalText lower) r w = ("false", [], w).
Proof.
  destruct (MarshalText_nil_error E v) as [Herr Hne].
  unfold FuncMap_string.
  destruct (MarshalText E v) as [text err]; simpl in *; subst err.
  split; [reflexivity|]. split; [exact Hne|].
  intros lower r; reflexivity.
Qed.

(** ** [readReports] *)

Lemma readReports_run {env : Env} (dir : string) (w : World) :
  readReports dir w =
  match ioutil_ReadDir dir w with
  | (inr err, w1) =>
      (([], Some (Wrap (External err) "read dir")), [EvReadDir dir], w1)
  | (inl files, w1) =>
      (valueOf (readReports_range files [] w1),
       EvReadDir dir :: traceOf (readReports_range files [] w1),
       worldOf (readReports_range files [] w1))
  end.
Proof.
  unfold readReports, bind, call, valueOf, traceOf, worldOf.
  destruct (ioutil_ReadDir dir w) as [[files | err] w1]; simpl;
    [|reflexivity].
  destruct (readReports_range files [] w1) as [[a t] w2]; reflexivity.
Qed.

(** X10.  Only entries of the directory whose name ends in ".xml" are read. *)
Theorem readReports_reads_only_xml {env : Env} (dir : string) (w : World)
        (name : string) :
  In name (filesRead (traceOf (readReports dir w))) ->
  (exists p, name = p ++ ".xml") /\
  exists files, fst (ioutil_ReadDir dir w) = inl files /\ In name files.
Proof.
  rewrite readReports_run.
  destruct (ioutil_ReadDir dir w) as [[files | err] w1];
    unfold traceOf; simpl; [|intros []].
  destruct (readReports_range_spec files [] w1)
    as (pre & post & Hfil & Hread & _).
  unfold traceOf in Hread; rewrite Hread. intros Hin.
  assert (Hf : In name (filter isXML files)).
  { rewrite Hfil; apply in_or_app; left; exact Hin. }
  apply filter_In in Hf as [Hfiles Hxml].
  split; [apply HasSuffix_iff, Hxml | exists files; auto].
Qed.

(** X11.  When [readReports] returns a nil error, it has read every entry whose
    name ends in ".xml", once each and in the order of the directory, and
    it returns one report per file: the one decoded from the content
    read, in the same order. *)
Theorem readReports_success {env : Env} (dir : string) (w : World) :
  snd (valueOf (readReports dir w)) = None ->
  exists files,
    fst (ioutil_ReadDir dir w) = inl files /\
    filesRead (traceOf (readReports dir w)) = filter isXML files /\
    fst (valueOf (readReports dir w)) =
    map decodeReport (contentsRead (traceOf (readReports dir w))) /\
    List.length (fst (valueOf (readReports dir w))) =
    List.length (filter isXML files).
Proof.
  rewrite readReports_run.
  destruct (ioutil_ReadDir dir w) as [[files | err] w1];
    unfold valueOf, traceOf; simpl; [|discriminate].
  destruct (readReports_range_spec files [] w1)
    as (pre & post & Hfil & Hread & _ & Hval).
  unfold valueOf, traceOf in *. intros Hok; rewrite Hok in Hval.
  destruct Hval as (-> & Hlen & Hres).
  rewrite app_nil_r in Hfil. exists files.
  split; [reflexivity|]. split; [congruence|].
  split; [exact Hres|].
  rewrite Hres; simpl. rewrite length_map, Hlen, Hfil; reflexivity.
Qed.

(** What the loop read, entry by entry: every read but the last returned
    a content that was decoded without an error, and the last one, when
    the loop returns an error, is the read that failed or whose content
    was not decoded. *)
Lemma readReports_range_reads {env : Env} (files : list string) :
  forall (result : list Feedback) (w : World),
  exists okReads,
    (forall entry,
       In entry okReads ->
       snd (xml_Unmarshal (snd entry) Feedback_zero) = None) /\
    fst (valueOf (readReports_range files result w)) =
    (result ++ map decodeReport (map snd okReads))%list /\
    match snd (valueOf (readReports_range files result w)) with
    | None =>
        traceOf (readReports_range files result w) = map readOK okReads /\
        filter isXML files = map fst okReads
    | Some e =>
        exists name last post cause,
          traceOf (readReports_range files result w) =
          (map readOK okReads ++ [EvReadFile name last])%list /\
          filter isXML files = (map fst okReads ++ name :: post)%list /\
          ((last = inr cause /\
            e = Wrapf (External cause) "read file %q" name) \/
           (exists content,
              last = inl content /\
              snd (xml_Unmarshal content Feedback_zero) = Some cause /\
              e = Wrapf (External cause) "xml unmarshal %q" name))
    end.
Proof.
  induction files as [|f rest IH]; intros result w.
  - exists []; simpl. split; [intros entry []|].
    split; [rewrite app_nil_r; reflexivity | split; reflexivity].
  - simpl. change (isXML f) with (HasSuffix f ".xml").
    destruct (HasSuffix f ".xml") eqn:Hxml; simpl; [|apply IH].
    unfold bind, call.
    destruct (ioutil_ReadFile f w) as [[content | err] w1].
    + destruct (xml_Unmarshal content Feedback_zero)
        as [feedback [err|]] eqn:Hdec.
      * exists []; unfold ret, valueOf, traceOf; simpl.
        split; [intros entry []|].
        split; [rewrite app_nil_r; reflexivity|].
        exists f, (inl content), (filter isXML rest), err.
        split; [reflexivity|]. split; [reflexivity|].
        right; exists content. rewrite Hdec; auto.
      * destruct (IH (result ++ [feedback])%list w1)
          as (okReads & Hall & Hres & Hval).
        exists ((f, content) :: okReads).
        destruct (readReports_range rest (result ++ [feedback])%list w1)
          as [[[reports err] t] w2].
        unfold valueOf, traceOf in *; simpl in *.
        split.
        { intros entry [<- | Hin]; [simpl; rewrite Hdec; reflexivity|].
          apply Hall, Hin. }
        split.
        { rewrite Hres, <- app_assoc. unfold decodeReport at 2.
          rewrite Hdec; reflexivity. }
        destruct err as [e|].
        -- destruct Hval as (name & last & post & cause & Ht & Hfil & He).
           exists name, last, post, cause.
           split; [rewrite Ht; reflexivity|].
           split; [rewrite Hfil; reflexivity | exact He].
        -- destruct Hval as [Ht Hfil].
           split; [rewrite Ht; reflexivity | rewrite Hfil; reflexivity].
    + exists []; unfold ret, valueOf, traceOf; simpl.
      split; [intros entry []|].
      split; [rewrite app_nil_r; reflexivity|].
      exists f, (inr err), (filter isXML rest), err.
      split; [reflexivity|]. split; [reflexivity|].
      left; auto.
Qed.

(** X12.  When [readReports] returns an error, either the directory could not
    be listed and nothing was read, or it stopped at the first ".xml"
    entry that could not be read or decoded: every ".xml" entry before it
    was read and decoded without an error, the read of that entry failed
    or its content was not decoded, no later entry is read, the error
    carries the name of that entry and the cause of its failure, and the
    reports returned with the error are those of the entries before
    it. *)
Theorem readReports_failure {env : Env} (dir : string) (w : World)
        (e : cmdError) :
  snd (valueOf (readReports dir w)) = Some e ->
  (exists cause,
     fst (ioutil_ReadDir dir w) = inr cause /\
     e = Wrap (External cause) "read dir" /\
     fst (valueOf (readReports dir w)) = [] /\
     traceOf (readReports dir w) = [EvReadDir dir]) \/
  (exists files okReads name last post cause,
     fst (ioutil_ReadDir dir w) = inl files /\
     filter isXML files = (map fst okReads ++ name :: post)%list /\
     traceOf (readReports dir w) =
     (EvReadDir dir :: map readOK okReads ++ [EvReadFile name last])%list /\
     (forall entry,
        In entry okReads ->
        snd (xml_Unmarshal (snd entry) Feedback_zero) = None) /\
     fst (valueOf (readReports dir w)) =
     map decodeReport (map snd okReads) /\
     List.length (fst (valueOf (readReports dir w))) =
     List.length okReads /\
     ((last = inr cause /\
       e = Wrapf (External cause) "read file %q" name) \/
      (exists content,
         last = inl content /\
         snd (xml_Unmarshal content Feedback_zero) = Some cause /\
         e = Wrapf (External cause) "xml unmarshal %q" name))).
Proof.
  rewrite readReports_run.
  destruct (ioutil_ReadDir dir w) as [[files | err] w1];
    unfold valueOf, traceOf; simpl.
  - intros He; right.
    destruct (readReports_range_reads files [] w1)
      as (okReads & Hall & Hres & Hval).
    unfold valueOf, traceOf in *. rewrite He in Hval.
    destruct Hval as (name & last & post & cause & Ht & Hfil & Herr).
    exists files, okReads, name, last, post, cause.
    split; [reflexivity|]. split; [exact Hfil|].
    split; [rewrite Ht; reflexivity|]. split; [exact Hall|].
    split; [exact Hres|]. split; [|exact Herr].
    rewrite Hres; simpl. rewrite !length_map; reflexivity.
  - intros [= <-]; left. exists err; repeat split.
Qed.

(** When [readReports] returns a nil error, every read returned a content
    that was decoded without an error. *)
Lemma readReports_ok_reads {env : Env} (dir : string) (w : World)
      (name : string) (last : string + Cause) :
  snd (valueOf (readReports dir w)) = None ->
  In (EvReadFile name last) (traceOf (readReports dir w)) ->
  exists content,
    last = inl content /\
    snd (xml_Unmarshal content Feedback_zero) = None.
Proof.
  rewrite readReports_run.
  destruct (ioutil_ReadDir dir w) as [[files | err] w1];
    unfold valueOf, traceOf; simpl; [|discriminate].
  intros Hok [H | H]; [discriminate H|].
  destruct (readReports_range_reads files [] w1)
    as (okReads & Hall & _ & Hval).
  unfold valueOf, traceOf in *. rewrite Hok in Hval.
  destruct Hval as [Ht _]. rewrite Ht in H.
  apply in_map_iff in H as [[n c] [Heq Hin]].
  injection Heq as <- <-. exists c; split; [reflexivity|].
  apply (Hall (n, c) Hin).
Qed.

(** ** [executeTemplate] *)

Lemma executeTemplate_run {env : Env} (filePath : string)
      (template : Template) (reports : list Feedback) (w : World) :
  executeTemplate filePath template reports w =
  match os_Create filePath w with
  | (inr c, w1) =>
      (Some (Wrapf (External c) "open file %q" filePath),
       [EvCreate filePath], w1)
  | (inl file, w1) =>
      match Template_Execute template file reports w1 with
      | (Some c, w2) =>
          match File_Close file w2 with
          | (Some c2, w3) =>
              (Some (Wrap (External c) "template execute"),
               [EvCreate filePath; EvExecute reports; EvClose;
                EvLog "ERROR close file %q: %v"
                  [ArgString filePath; ArgError (External c)]], w3)
          | (None, w3) =>
              (Some (Wrap (External c) "template execute"),
               [EvCreate filePath; EvExecute reports; EvClose], w3)
          end
      | (None, w2) =>
          match File_Close file w2 with
          | (Some c2, w3) =>
              (Some (Wrapf (External c2) "close file %q" filePath),
               [EvCreate filePath; EvExecute reports; EvClose], w3)
          | (None, w3) =>
              (None, [EvCreate filePath; EvExecute reports; EvClose], w3)
          end
      end
  end.
Proof.
  unfold executeTemplate, bind, call, log_Printf, ret.
  destruct (os_Create filePath w) as [[file | c] w1]; [|reflexivity].
  destruct (Template_Execute template file reports w1) as [[c|] w2];
    destruct (File_Close file w2) as [[c2|] w3]; reflexivity.
Qed.

(** X13.  [executeTemplate] closes the file it created exactly once, whether
    the template ran or failed, and closes nothing when the file could not
    be created; the template is executed exactly when the file was
    created. *)
Theorem executeTemplate_closes_file {env : Env} (filePath : string)
        (template : Template) (reports : list Feedback) (w : World) :
  filter isClose (traceOf (executeTemplate filePath template reports w)) =
  match fst (os_Create filePath w) with
  | inl _ => [EvClose]
  | inr _ => []
  end /\
  (In (EvExecute reports)
      (traceOf (executeTemplate filePath template reports w)) <->
   exists file, fst (os_Create filePath w) = inl file).
Proof.
  rewrite executeTemplate_run.
  destruct (os_Create filePath w) as [[file | c] w1]; simpl.
  - destruct (Template_Execute template file reports w1) as [[c|] w2];
      destruct (File_Close file w2) as [[c2|] w3]; unfold traceOf; simpl;
      (split; [reflexivity | split; [eauto | auto]]).
  - unfold traceOf; simpl. split; [reflexivity|].
    split; [intros [H | []]; discriminate H | intros [file H]; discriminate H].
Qed.

(** X14.  When the template fails, [executeTemplate] returns the error of
    [Execute], wrapped as "template execute", whatever [Close] returns; and
    when [Close] fails too, the log line about the close carries the error
    of [Execute]: the error of [Close] is neither returned nor logged. *)
Theorem executeTemplate_execute_error_wins {env : Env} (filePath : string)
        (template : Template) (reports : list Feedback) (w w1 w2 : World)
        (file : File) (c : Cause) :
  os_Create filePath w = (inl file, w1) ->
  Template_Execute template file reports w1 = (Some c, w2) ->
  valueOf (executeTemplate filePath template reports w) =
  Some (Wrap (External c) "template execute") /\
  (forall c2 w3,
     File_Close file w2 = (Some c2, w3) ->
     traceOf (executeTemplate filePath template reports w) =
     [EvCreate filePath; EvExecute reports; EvClose;
      EvLog "ERROR close file %q: %v"
        [ArgString filePath; ArgError (External c)]]).
Proof.
  intros Hcreate Hexec. rewrite executeTemplate_run, Hcreate, Hexec.
  destruct (File_Close file w2) as [[c2|] w3]; split; try reflexivity.
  intros c2' w3' Hclose; discriminate Hclose.
Qed.

(** ** [run] *)

Lemma loadTemplate_run {env : Env} (templatePath : string) (w : World) :
  loadTemplate templatePath w =
  match template_ParseFiles templatePath w with
  | (inr c, w1) =>
      (inr (Wrapf (External c) "template parse %q" templatePath),
       [EvParseFiles templatePath], w1)
  | (inl t, w1) => (inl t, [EvParseFiles templatePath], w1)
  end.
Proof.
  unfold loadTemplate, bind, call, ret.
  destruct (template_ParseFiles templatePath w) as [[t | c] w1];
    reflexivity.
Qed.

Lemma run_run {env : Env} (templatePath reportsPath outPath : string)
      (w : World) :
  run templatePath reportsPath outPath w =
  let log1 := EvLog "Loading template from %q..." [ArgString templatePath] in
  let log2 := EvLog "Loading reports from %q..." [ArgString reportsPath] in
  let log3 := EvLog "Rendering template to %q..." [ArgString outPath] in
  let lt := loadTemplate templatePath w in
  match valueOf lt with
  | inr err => (Some (Wrap err "read reports"), log1 :: traceOf lt, worldOf lt)
  | inl template =>
      let rr := readReports reportsPath (worldOf lt) in
      match valueOf rr with
      | (reports, Some err) =>
          (Some (Wrap err "read reports"),
           log1 :: (traceOf lt ++ log2 :: traceOf rr)%list, worldOf rr)
      | (reports, None) =>
          let et := executeTemplate outPath template reports (worldOf rr) in
          (match valueOf et with
           | Some err => Some (Wrap err "read reports")
           | None => None
           end,
           log1 :: (traceOf lt ++ log2 :: (traceOf rr ++ log3 :: traceOf et))%list,
           worldOf et)
      end
  end.
Proof.
  unfold run, bind, log_Printf, ret, valueOf, traceOf, worldOf.
  destruct (loadTemplate templatePath w) as [[[template | err] tlt] w1];
    simpl; [|rewrite app_nil_r; reflexivity].
  destruct (readReports reportsPath w1) as [[[reports [err|]] trr] w2];
    simpl; [rewrite app_nil_r; reflexivity|].
  destruct (executeTemplate outPath template reports w2)
    as [[[err|] tet] w3]; simpl; rewrite app_nil_r; reflexivity.
Qed.

Lemma readReports_trace {env : Env} (dir : string) (w : World)
      (ev : event) :
  In ev (traceOf (readReports dir w)) ->
  ev = EvReadDir dir \/ exists name c, ev = EvReadFile name c.
Proof.
  rewrite readReports_run.
  destruct (ioutil_ReadDir dir w) as [[files | err] w1];
    unfold traceOf; simpl.
  - intros [<- | Hin]; [left; reflexivity | right].
    destruct (readReports_range_spec files [] w1)
      as (pre & post & _ & _ & Hev & _).
    apply Hev, Hin.
  - intros [<- | []]; left; reflexivity.
Qed.

Lemma readReports_error_cases {env : Env} (dir : string) (w : World)
      (e : cmdError) :
  snd (valueOf (readReports dir w)) = Some e ->
  exists cause,
    e = Wrap (External cause) "read dir" \/
    exists name,
      e = Wrapf (External cause) "read file %q" name \/
      e = Wrapf (External cause) "xml unmarshal %q" name.
Proof.
  rewrite readReports_run.
  destruct (ioutil_ReadDir dir w) as [[files | err] w1];
    unfold valueOf; simpl.
  - intros He.
    destruct (readReports_range_spec files [] w1)
      as (pre & post & _ & _ & _ & Hval).
    unfold valueOf in Hval; rewrite He in Hval.
    destruct Hval as (pre' & name & cause & _ & _ & _ & Herr).
    exists cause; right; exists name; exact Herr.
  - intros [= <-]. exists err; left; reflexivity.
Qed.

Lemma loadTemplate_error_cases {env : Env} (templatePath : string)
      (w : World) (err : cmdError) :
  valueOf (loadTemplate templatePath w) = inr err ->
  exists cause, err = Wrapf (External cause) "template parse %q" templatePath.
Proof.
  rewrite loadTemplate_run.
  destruct (template_ParseFiles templatePath w) as [[t | c] w1];
    unfold valueOf; simpl; intros [= <-].
  exists c; reflexivity.
Qed.

Lemma executeTemplate_error_cases {env : Env} (filePath : string)
      (template : Template) (reports : list Feedback) (w : World)
      (err : cmdError) :
  valueOf (executeTemplate filePath template reports w) = Some err ->
  exists cause,
    err = Wrapf (External cause) "open file %q" filePath \/
    err = Wrap (External cause) "template execute" \/
    err = Wrapf (External cause) "close file %q" filePath.
Proof.
  rewrite executeTemplate_run.
  destruct (os_Create filePath w) as [[file | c] w1].
  - destruct (Template_Execute template file reports w1) as [[c|] w2];
      destruct (File_Close file w2) as [[c2|] w3]; unfold valueOf; simpl;
      intros [= <-]; eauto.
  - unfold valueOf; simpl; intros [= <-]; eauto.
Qed.

(** X15.  Every error returned by [run] is wrapped with the message
    "read reports", whichever step failed: parsing the template, listing
    the directory, reading or decoding a report, creating the output,
    executing the template or closing the output.  The wrapped error is
    the one of the step. *)
Theorem run_error_wrapped_read_reports {env : Env}
        (templatePath reportsPath outPath : string) (w : World)
        (e : cmdError) :
  valueOf (run templatePath reportsPath outPath w) = Some e ->
  exists e' cause,
    e = Wrap e' "read reports" /\
    (e' = Wrapf (External cause) "template parse %q" templatePath \/
     e' = Wrap (External cause) "read dir" \/
     (exists name, e' = Wrapf (External cause) "read file %q" name) \/
     (exists name, e' = Wrapf (External cause) "xml unmarshal %q" name) \/
     e' = Wrapf (External cause) "open file %q" outPath \/
     e' = Wrap (External cause) "template execute" \/
     e' = Wrapf (External cause) "close file %q" outPath).
Proof.
  rewrite run_run; cbv zeta.
  destruct (valueOf (loadTemplate templatePath w)) as [template | err]
    eqn:Hlt.
  - destruct (valueOf (readReports reportsPath
                         (worldOf (loadTemplate templatePath w))))
      as [reports [err|]] eqn:Hrr.
    + intros [= <-].
      assert (Herr : snd (valueOf (readReports reportsPath
                                     (worldOf (loadTemplate templatePath w))))
                     = Some err) by (rewrite Hrr; reflexivity).
      destruct (readReports_error_cases _ _ _ Herr)
        as [cause [-> | [name [-> | ->]]]];
        eexists; exists cause; (split; [reflexivity | eauto 10]).
    + destruct (valueOf (executeTemplate outPath template reports _))
        as [err|] eqn:Het; [|discriminate].
      intros [= <-].
      destruct (executeTemplate_error_cases _ _ _ _ _ Het)
        as [cause [-> | [-> | ->]]];
        eexists; exists cause; (split; [reflexivity | auto 10]).
  - intros [= <-].
    destruct (loadTemplate_error_cases _ _ _ Hlt) as [cause ->].
    eexists; exists cause; split; [reflexivity | left; reflexivity].
Qed.

Lemma executeTemplate_trace {env : Env} (filePath : string)
      (template : Template) (reports : list Feedback) (w : World)
      (ev : event) :
  In ev (traceOf (executeTemplate filePath template reports w)) ->
  ev = EvCreate filePath \/ ev = EvExecute reports \/ ev = EvClose \/
  exists format args, ev = EvLog format args.
Proof.
  rewrite executeTemplate_run.
  destruct (os_Create filePath w) as [[file | c] w1];
    [destruct (Template_Execute template file reports w1) as [[c|] w2];
     destruct (File_Close file w2) as [[c2|] w3] |];
    unfold traceOf; simpl; intros H;
    repeat (destruct H as [<- | H]; [eauto 10 |]); contradiction.
Qed.

(** The events of a run: log lines, the parsing of the template, the
    listing of the directory and the reads of files; any other event is
    left by [executeTemplate], called after the template was parsed and
    the reports were read without an error. *)
Lemma run_trace {env : Env} (templatePath reportsPath outPath : string)
      (w : World) (ev : event) :
  In ev (traceOf (run templatePath reportsPath outPath w)) ->
  ((exists format args, ev = EvLog format args) \/
   ev = EvParseFiles templatePath \/ ev = EvReadDir reportsPath \/
   exists name c, ev = EvReadFile name c) \/
  exists template reports,
    valueOf (loadTemplate templatePath w) = inl template /\
    valueOf (readReports reportsPath
               (worldOf (loadTemplate templatePath w))) = (reports, None) /\
    In ev (traceOf (executeTemplate outPath template reports
                      (worldOf (readReports reportsPath
                                  (worldOf (loadTemplate templatePath w)))))).
Proof.
  rewrite run_run; cbv zeta.
  assert (Hlt : forall ev,
             In ev (traceOf (loadTemplate templatePath w)) ->
             ev = EvParseFiles templatePath).
  { intros ev'. rewrite loadTemplate_run.
    destruct (template_ParseFiles templatePath w) as [[t | c] w1];
      unfold traceOf; simpl; intros [<- | []]; reflexivity. }
  pose proof (readReports_trace reportsPath
                (worldOf (loadTemplate templatePath w))) as Hrr.
  destruct (valueOf (loadTemplate templatePath w)) as [template | err].
  - destruct (valueOf (readReports reportsPath
                         (worldOf (loadTemplate templatePath w))))
      as [reports [err|]].
    + unfold traceOf at 1; simpl. intros [<- | H]; [eauto 10|].
      apply in_app_or in H as [H | [<- | H]]; [| eauto 10 |].
      * apply Hlt in H; auto.
      * apply Hrr in H as [H | H]; auto 10.
    + unfold traceOf at 1; simpl. intros [<- | H]; [eauto 10|].
      apply in_app_or in H as [H | [<- | H]]; [| eauto 10 |].
      * apply Hlt in H; auto.
      * apply in_app_or in H as [H | [<- | H]]; [| eauto 10 |].
        -- apply Hrr in H as [H | H]; auto 10.
        -- right; exists template, reports; auto.
  - unfold traceOf at 1; simpl. intros [<- | H]; [eauto 10|].
    apply Hlt in H; auto.
Qed.

(** The reads of a run are those of [readReports], called after the
    template was parsed. *)
Lemma run_reads {env : Env} (templatePath reportsPath outPath : string)
      (w : World) (name : string) (last : string + Cause) :
  In (EvReadFile name last)
     (traceOf (run templatePath reportsPath outPath w)) ->
  exists template,
    valueOf (loadTemplate templatePath w) = inl template /\
    In (EvReadFile name last)
       (traceOf (readReports reportsPath
                   (worldOf (loadTemplate templatePath w)))).
Proof.
  rewrite run_run; cbv zeta.
  assert (Hlt : forall ev,
             In ev (traceOf (loadTemplate templatePath w)) ->
             ev = EvParseFiles templatePath).
  { intros ev'. rewrite loadTemplate_run.
    destruct (template_ParseFiles templatePath w) as [[t | c] w1];
      unfold traceOf; simpl; intros [<- | []]; reflexivity. }
  destruct (valueOf (loadTemplate templatePath w)) as [template | err].
  - destruct (valueOf (readReports reportsPath
                         (worldOf (loadTemplate templatePath w))))
      as [reports [err|]].
    + unfold traceOf at 1; simpl. intros [H | H]; [discriminate H|].
      apply in_app_or in H as [H | [H | H]];
        [apply Hlt in H; discriminate H | discriminate H | eauto].
    + unfold traceOf at 1; simpl. intros [H | H]; [discriminate H|].
      apply in_app_or in H as [H | [H | H]];
        [apply Hlt in H; discriminate H | discriminate H |].
      apply in_app_or in H as [H | [H | H]];
        [eauto | discriminate H |].
      apply executeTemplate_trace in H
        as [H | [H | [H | (f & a & H)]]]; discriminate H.
  - unfold traceOf at 1; simpl. intros [H | H]; [discriminate H|].
    apply Hlt in H; discriminate H.
Qed.

(** X16.  [run] creates the output file and executes the template only after
    the template was parsed and [readReports] returned a nil error, and
    the template is executed with the reports that [readReports]
    returned: a failed report leaves no output, complete or partial.  When
    a read of the run failed, or returned a content that is not decoded,
    the output file is not created, the template is not executed, and
    [run] returns an error. *)
Theorem run_renders_complete_input {env : Env}
        (templatePath reportsPath outPath : string) (w : World) :
  (forall reports,
     In (EvExecute reports)
        (traceOf (run templatePath reportsPath outPath w)) ->
     exists template,
       valueOf (loadTemplate templatePath w) = inl template /\
       valueOf (readReports reportsPath
                  (worldOf (loadTemplate templatePath w))) =
       (reports, None)) /\
  (forall path,
     In (EvCreate path)
        (traceOf (run templatePath reportsPath outPath w)) ->
     path = outPath /\
     (exists template,
        valueOf (loadTemplate templatePath w) = inl template) /\
     snd (valueOf (readReports reportsPath
                     (worldOf (loadTemplate templatePath w)))) = None) /\
  (forall name last,
     In (EvReadFile name last)
        (traceOf (run templatePath reportsPath outPath w)) ->
     (forall content,
        last = inl content ->
        snd (xml_Unmarshal content Feedback_zero) <> None) ->
     (forall path,
        ~ In (EvCreate path)
             (traceOf (run templatePath reportsPath outPath w))) /\
     (forall reports,
        ~ In (EvExecute reports)
             (traceOf (run templatePath reportsPath outPath w))) /\
     valueOf (run templatePath reportsPath outPath w) <> None).
Proof.
  split; [|split].
  - intros rs H.
    destruct (run_trace _ _ _ _ _ H)
      as [[(f & a & He) | [He | [He | (n & c & He)]]]
         | (template & reports & Hlt & Hrr & Hin)];
      try discriminate He.
    apply executeTemplate_trace in Hin
      as [He | [He | [He | (f & a & He)]]]; try discriminate He.
    injection He as ->. exists template; auto.
  - intros path H.
    destruct (run_trace _ _ _ _ _ H)
      as [[(f & a & He) | [He | [He | (n & c & He)]]]
         | (template & reports & Hlt & Hrr & Hin)];
      try discriminate He.
    apply executeTemplate_trace in Hin
      as [He | [He | [He | (f & a & He)]]]; try discriminate He.
    injection He as ->.
    split; [reflexivity|]. split; [exists template; exact Hlt|].
    rewrite Hrr; reflexivity.
  - intros name last Hin Hbad.
    destruct (run_reads _ _ _ _ _ _ Hin) as (template & Hlt & Hin').
    assert (Hrr : snd (valueOf (readReports reportsPath
                                  (worldOf (loadTemplate templatePath w))))
                  <> None).
    { intros Hnone.
      destruct (readReports_ok_reads _ _ _ _ Hnone Hin')
        as (content & -> & Hdec).
      exact (Hbad content eq_refl Hdec). }
    split; [|split].
    + intros path H.
      destruct (run_trace _ _ _ _ _ H)
        as [[(f & a & He) | [He | [He | (n & c & He)]]]
           | (template' & reports & _ & Hrr' & _)];
        try discriminate He.
      apply Hrr; rewrite Hrr'; reflexivity.
    + intros rs H.
      destruct (run_trace _ _ _ _ _ H)
        as [[(f & a & He) | [He | [He | (n & c & He)]]]
           | (template' & reports & _ & Hrr' & _)];
        try discriminate He.
      apply Hrr; rewrite Hrr'; reflexivity.
    + rewrite run_run; cbv zeta. rewrite Hlt.
      destruct (valueOf (readReports reportsPath
                           (worldOf (loadTemplate templatePath w))))
        as [reports [err|]]; [discriminate|].
      exfalso; apply Hrr; reflexivity.
Qed.

(** * The codecs at concrete tokens *)

(** C1, as stated, fails for Alignment: the token written for
    AlignmentRelaxed is rejected by the decoder, and the value stored
    before the call (here AlignmentStrict) stays. *)
Lemma Alignment_roundtrip_fails :
  Alignment_UnmarshalText Map_lower_ascii_only AlignmentStrict
    (fst (Alignment_MarshalText AlignmentRelaxed)) <>
  (AlignmentRelaxed, None).
Proof.
  discriminate.
Qed.

Lemma roundtrip_strict_codecs_witness :
  In SPFResultSoftFail (members ESPFResult) /\
  MarshalText ESPFResult SPFResultSoftFail = ("softfail", None) /\
  UnmarshalText Map_lower_ascii_only ESPFResult SPFResultNone
    (fst (MarshalText ESPFResult SPFResultSoftFail)) =
  (SPFResultSoftFail, None).
Proof.
  assert (Hin : In SPFResultSoftFail (members ESPFResult)).
  { simpl; auto 10. }
  split; [exact Hin|]. split; [reflexivity|].
  apply (roundtrip_strict_codecs Map_lower_ascii_only ESPFResult
           SPFResultSoftFail SPFResultNone Hin).
  discriminate.
Defined.

(** C3, as stated, fails at "PASS": it differs from "pass" only in case
    and is decoded to true, not to false. *)
Lemma Result_UnmarshalText_PASS_true :
  sameUpToCase "PASS" "pass" = true /\
  fst (Result_UnmarshalText Map_lower_ascii_only false "PASS") <> false.
Proof.
  split; [reflexivity | discriminate].
Qed.

Lemma Result_UnmarshalText_total_witness :
  fst (Result_UnmarshalText Map_lower_ascii_only false "Pass") = true /\
  fst (Result_UnmarshalText Map_lower_ascii_only true "passed") = false.
Proof.
  split.
  - apply (Result_UnmarshalText_total Map_lower_ascii_only false "Pass").
    reflexivity.
  - apply (Result_UnmarshalText_total Map_lower_ascii_only true "passed").
    discriminate.
Defined.

Lemma Alignment_UnmarshalText_accepts_r_s_witness :
  Alignment_UnmarshalText Map_lower_ascii_only AlignmentRelaxed "S" =
  (AlignmentStrict, None) /\
  Alignment_UnmarshalText Map_lower_ascii_only AlignmentStrict "relaxed" =
  (AlignmentStrict, Some (Errorf "unexpected Alignment value %q" "relaxed")).
Proof.
  split.
  - apply (Alignment_UnmarshalText_accepts_r_s Map_lower_ascii_only
             AlignmentRelaxed "S").
    reflexivity.
  - apply (Alignment_UnmarshalText_accepts_r_s Map_lower_ascii_only
             AlignmentStrict "relaxed"); discriminate.
Defined.

Lemma PolicyOverride_UnmarshalText_vocabulary_witness :
  PolicyOverride_UnmarshalText Map_lower_ascii_only PolicyOverrideOther
    "forward" =
  (PolicyOverrideOther,
   Some (Errorf "unexpected PolicyOverride value %q" "forward")) /\
  PolicyOverride_UnmarshalText Map_lower_ascii_only PolicyOverrideOther
    "Mailing_List" =
  (PolicyOverrideMailingList, None).
Proof.
  split.
  - apply (PolicyOverride_UnmarshalText_vocabulary Map_lower_ascii_only
             PolicyOverrideOther "forward").
    simpl; intros H; repeat destruct H as [H | H]; solve [discriminate H | exact H].
  - apply (proj2 (PolicyOverride_UnmarshalText_vocabulary
                    Map_lower_ascii_only PolicyOverrideOther "Mailing_List")
                 "mailing_list" PolicyOverrideMailingList).
    + simpl; auto 10.
    + reflexivity.
Defined.

(** C8, as stated, fails for Alignment at "RELAXED": it differs only in
    case from "relaxed", the token of the enumeration that
    [Alignment.MarshalText] writes, and the decoder rejects it. *)
Lemma Alignment_UnmarshalText_RELAXED_rejected :
  sameUpToCase "RELAXED" "relaxed" = true /\
  fst (Alignment_MarshalText AlignmentRelaxed) = "relaxed" /\
  Alignment_UnmarshalText Map_lower_ascii_only AlignmentStrict "RELAXED" =
  (AlignmentStrict,
   Some (Errorf "unexpected Alignment value %q" "RELAXED")) /\
  snd (Alignment_UnmarshalText Map_lower_ascii_only AlignmentStrict
         "RELAXED") <> None.
Proof.
  repeat split; discriminate.
Qed.

Lemma UnmarshalText_case_insensitive_witness :
  UnmarshalText Map_lower_ascii_only EDisposition DispositionNone
    "QuArAnTiNe" = (DispositionQuarantine, None) /\
  Result_UnmarshalText Map_lower_ascii_only true "FAIL" = (false, None) /\
  fst (UnmarshalText Map_lower_ascii_only ESPFDomainScope SPFDomainScopeMFrom
         "HELO") =
  fst (UnmarshalText Map_lower_ascii_only ESPFDomainScope SPFDomainScopeMFrom
         "helo") /\
  Alignment_UnmarshalText Map_lower_ascii_only AlignmentRelaxed "Strict" =
  (AlignmentRelaxed, Some (Errorf "unexpected Alignment value %q" "Strict")).
Proof.
  split; [|split; [|split]].
  - apply (proj1 (UnmarshalText_case_insensitive Map_lower_ascii_only
                    "QuArAnTiNe" "quarantine" eq_refl)
                 EDisposition DispositionNone DispositionQuarantine).
    simpl; auto.
  - apply (proj1 (proj2 (UnmarshalText_case_insensitive
                           Map_lower_ascii_only "FAIL" "fail" eq_refl))
                 true false).
    simpl; auto.
  - apply (proj1 (proj2 (proj2 (UnmarshalText_case_insensitive
                                  Map_lower_ascii_only "HELO" "helo"
                                  eq_refl)))
                 ESPFDomainScope SPFDomainScopeMFrom).
    reflexivity.
  - apply (proj2 (proj2 (proj2 (UnmarshalText_case_insensitive
                                  Map_lower_ascii_only "Strict" "strict"
                                  eq_refl)))
                 AlignmentRelaxed).
    simpl; auto.
Defined.

Lemma SPFDomainScope_zero_value_helo_witness :
  SPFAuthResult_decode Map_lower_ascii_only SPFAuthResult_zero
    [("domain", "example.com"); ("result", "Pass")] =
  (mkSPFAuthResult "example.com" SPFDomainScopeHelo SPFResultPass, None) /\
  SPFDomainScope_MarshalText
    (SPF_Scope
       (fst (SPFAuthResult_decode Map_lower_ascii_only SPFAuthResult_zero
               [("domain", "example.com"); ("result", "Pass")]))) =
  ("helo", None) /\
  snd (SPFAuthResult_decode Map_lower_ascii_only SPFAuthResult_zero
         [("domain", "example.com"); ("result", "Pass")]) = None.
Proof.
  assert (Hno : forall text,
             ~ In ("scope", text)
                  [("domain", "example.com"); ("result", "Pass")]).
  { intros text H; simpl in H.
    destruct H as [H | [H | []]]; discriminate H. }
  split; [reflexivity|]. split.
  - apply (SPFDomainScope_zero_value_helo Map_lower_ascii_only
             [("domain", "example.com"); ("result", "Pass")] Hno).
  - apply (SPFDomainScope_zero_value_helo Map_lower_ascii_only
             [("domain", "example.com"); ("result", "Pass")] Hno).
    intros text H; simpl in H.
    destruct H as [H | [H | []]]; [discriminate H|].
    injection H as <-. simpl; auto 10.
Defined.

Lemma UnmarshalText_failure_atomic_witness :
  snd (UnmarshalText Map_lower_ascii_only EDisposition DispositionReject
         "bogus") <> None /\
  fst (UnmarshalText Map_lower_ascii_only EDisposition DispositionReject
         "bogus") = DispositionReject.
Proof.
  assert (Herr : snd (UnmarshalText Map_lower_ascii_only EDisposition
                        DispositionReject "bogus") <> None)
    by discriminate.
  split; [exact Herr|].
  apply (UnmarshalText_failure_atomic Map_lower_ascii_only EDisposition
           DispositionReject "bogus" Herr).
Defined.

(** * The further properties at concrete inputs *)

Lemma UnmarshalText_image_is_members_witness :
  UnmarshalText Map_lower_ascii_only ESPFResult SPFResultNone "SoftFail" =
  (SPFResultSoftFail, None) /\
  In (fst (UnmarshalText Map_lower_ascii_only ESPFResult SPFResultNone
             "SoftFail")) (members ESPFResult).
Proof.
  split; [reflexivity|].
  apply (proj2 (UnmarshalText_image_is_members Map_lower_ascii_only
                  ESPFResult) SPFResultNone "SoftFail").
  reflexivity.
Defined.

Lemma UnmarshalText_ignores_stored_value_witness :
  UnmarshalText Map_lower_ascii_only EDKIMResult DKIMResultNone "Policy" =
  UnmarshalText Map_lower_ascii_only EDKIMResult DKIMResultFail "Policy".
Proof.
  apply (UnmarshalText_ignores_stored_value Map_lower_ascii_only
           EDKIMResult DKIMResultNone DKIMResultFail "Policy").
  reflexivity.
Defined.

Lemma MarshalText_injective_witness :
  fst (MarshalText ESPFResult 2) = "pass" /\ 2 = SPFResultPass.
Proof.
  split; [reflexivity|].
  apply (MarshalText_injective ESPFResult 2 SPFResultPass);
    [reflexivity | discriminate].
Defined.

Lemma unknown_token_rejected_witness :
  ~ In 3 (members EDisposition) /\
  UnmarshalText Map_lower_ascii_only EDisposition DispositionReject
    (fst (MarshalText EDisposition 3)) =
  (DispositionReject,
   Some (Errorf "unexpected Disposition value %q" "unknown")).
Proof.
  assert (Hout : ~ In 3 (members EDisposition)).
  { simpl; intros [H | [H | [H | []]]]; discriminate H. }
  split; [exact Hout|].
  apply (unknown_token_rejected Map_lower_ascii_only EDisposition 3
           DispositionReject Hout).
Defined.

Lemma MarshalText_after_UnmarshalText_witness :
  MarshalText EPolicyOverride
    (fst (UnmarshalText Map_lower_ascii_only EPolicyOverride
            PolicyOverrideOther "Sampled_Out")) =
  (ToLower Map_lower_ascii_only "Sampled_Out", None) /\
  MarshalText EAlignment
    (fst (UnmarshalText Map_lower_ascii_only EAlignment
            AlignmentRelaxed "S")) = ("strict", None).
Proof.
  split.
  - apply (MarshalText_after_UnmarshalText Map_lower_ascii_only
             EPolicyOverride PolicyOverrideOther "Sampled_Out");
      [reflexivity | discriminate].
  - apply (proj2 (MarshalText_after_UnmarshalText Map_lower_ascii_only
                    EAlignment AlignmentRelaxed "S" eq_refl) eq_refl).
Defined.

Lemma readReports_reads_only_xml_witness :
  In "b.xml"
     (filesRead (traceOf (readReports (env := toyEnv) "." toy_reports))) /\
  exists p, "b.xml" = p ++ ".xml".
Proof.
  assert (Hin : In "b.xml"
                  (filesRead
                     (traceOf (readReports (env := toyEnv) "."
                                 toy_reports)))).
  { simpl; auto. }
  split; [exact Hin|].
  apply (readReports_reads_only_xml (env := toyEnv) "." toy_reports
           "b.xml" Hin).
Defined.

Lemma readReports_success_witness :
  valueOf (readReports (env := toyEnv) "." toy_reports) =
  (["<feedback>a</feedback>"; "<feedback>b</feedback>"], None) /\
  exists files,
    fst (ioutil_ReadDir (Env := toyEnv) "." toy_reports) = inl files /\
    filesRead (traceOf (readReports (env := toyEnv) "." toy_reports)) =
    filter isXML files /\
    fst (valueOf (readReports (env := toyEnv) "." toy_reports)) =
    map (decodeReport (env := toyEnv))
      (contentsRead (traceOf (readReports (env := toyEnv) "."
                                toy_reports))) /\
    List.length (fst (valueOf (readReports (env := toyEnv) "."
                                 toy_reports))) =
    List.length (filter isXML files).
Proof.
  split; [reflexivity|].
  apply (readReports_success (env := toyEnv) "." toy_reports).
  reflexivity.
Defined.

Lemma readReports_failure_witness :
  valueOf (readReports (env := toyEnv) "." toy_reports_bad) =
  (["<feedback>a</feedback>"],
   Some (Wrapf (External (env := toyEnv) "EOF") "xml unmarshal %q"
           "bad.xml")) /\
  filesRead (traceOf (readReports (env := toyEnv) "." toy_reports_bad)) =
  ["a.xml"; "bad.xml"].
Proof.
  split; [reflexivity|].
  destruct (readReports_failure (env := toyEnv) "." toy_reports_bad
              (Wrapf (External (env := toyEnv) "EOF") "xml unmarshal %q"
                 "bad.xml") eq_refl)
    as [(cause & Hdir & _) | _];
    [discriminate Hdir | reflexivity].
Defined.

Lemma executeTemplate_execute_error_wins_witness :
  valueOf (executeTemplate (env := toyEnv) "full.html" "broken.html" []
             toy_reports) =
  Some (Wrap (External (env := toyEnv) "no such field") "template execute")
  /\
  traceOf (executeTemplate (env := toyEnv) "full.html" "broken.html" []
             toy_reports) =
  [EvCreate "full.html"; EvExecute []; EvClose;
   EvLog "ERROR close file %q: %v"
     [ArgString "full.html";
      ArgError (External (env := toyEnv) "no such field")]].
Proof.
  destruct (executeTemplate_execute_error_wins (env := toyEnv)
              "full.html" "broken.html" [] toy_reports toy_reports
              toy_reports "full.html" "no such field" eq_refl eq_refl)
    as [Hval Htrace].
  split; [exact Hval|].
  apply (Htrace "disk full" toy_reports); reflexivity.
Defined.

Lemma run_error_wrapped_read_reports_witness :
  exists e' cause,
    Wrap (Wrapf (External (env := toyEnv) "no such file")
            "template parse %q" "missing.html") "read reports" =
    Wrap e' "read reports" /\
    (e' = Wrapf (External cause) "template parse %q" "missing.html" \/
     e' = Wrap (External cause) "read dir" \/
     (exists name, e' = Wrapf (External cause) "read file %q" name) \/
     (exists name, e' = Wrapf (External cause) "xml unmarshal %q" name) \/
     e' = Wrapf (External cause) "open file %q" "report.html" \/
     e' = Wrap (External cause) "template execute" \/
     e' = Wrapf (External cause) "close file %q" "report.html").
Proof.
  apply (run_error_wrapped_read_reports (env := toyEnv) "missing.html" "."
           "report.html" toy_reports).
  reflexivity.
Defined.

Lemma run_renders_complete_input_witness :
  In (EvExecute (env := toyEnv)
        ["<feedback>a</feedback>"; "<feedback>b</feedback>"])
     (traceOf (run (env := toyEnv) "template.html" "." "report.html"
                 toy_reports)) /\
  valueOf (readReports (env := toyEnv) "."
             (worldOf (loadTemplate (env := toyEnv) "template.html"
                         toy_reports))) =
  (["<feedback>a</feedback>"; "<feedback>b</feedback>"], None) /\
  snd (valueOf (readReports (env := toyEnv) "."
                  (worldOf (loadTemplate (env := toyEnv) "template.html"
                              toy_reports)))) = None /\
  In (EvReadFile (env := toyEnv) "bad.xml" (inl "not a report"))
     (traceOf (run (env := toyEnv) "template.html" "." "report.html"
                 toy_reports_bad)) /\
  ~ In (EvCreate (env := toyEnv) "report.html")
       (traceOf (run (env := toyEnv) "template.html" "." "report.html"
                   toy_reports_bad)).
Proof.
  assert (Hex : In (EvExecute (env := toyEnv)
                      ["<feedback>a</feedback>"; "<feedback>b</feedback>"])
                   (traceOf (run (env := toyEnv) "template.html" "."
                               "report.html" toy_reports))).
  { simpl; auto 10. }
  assert (Hcr : In (EvCreate (env := toyEnv) "report.html")
                   (traceOf (run (env := toyEnv) "template.html" "."
                               "report.html" toy_reports))).
  { simpl; auto 10. }
  assert (Hbad : In (EvReadFile (env := toyEnv) "bad.xml"
                       (inl "not a report"))
                    (traceOf (run (env := toyEnv) "template.html" "."
                                "report.html" toy_reports_bad))).
  { simpl; auto 10. }
  split; [exact Hex|]. split; [|split; [|split; [exact Hbad|]]].
  - destruct (proj1 (run_renders_complete_input (env := toyEnv)
                       "template.html" "." "report.html" toy_reports)
                    _ Hex) as (template & _ & Hrr).
    exact Hrr.
  - apply (proj1 (proj2 (run_renders_complete_input (env := toyEnv)
                           "template.html" "." "report.html" toy_reports))
                 _ Hcr).
  - apply (proj2 (proj2 (run_renders_complete_input (env := toyEnv)
                           "template.html" "." "report.html"
                           toy_reports_bad))
                 "bad.xml" (inl "not a report") Hbad).
    intros content [= <-]; discriminate.
Defined.
